(** * Botan: EC key model and TLS callback defaults

    A shallow embedding of [src/pubkey/ecc_key/ecc_key.cpp] and
    [src/lib/tls/tls_callbacks.cpp].

    Conventions.
    - A C++ function that may throw returns a [result]; the exception value
      records the exception class and the message given at the throw site.
    - [BigInt] is [Z]; byte buffers are [list byte].
    - The TLS callbacks talk to collaborators (policy, path validation, key
      agreement).  Each such call is recorded in an event log, so that
      statements of the form "fails before X is consulted" can be written
      down.
    - Library code outside the two files (point arithmetic, group tables,
      OCSP parsing, key agreement, ...) enters through the interfaces
      [EC_Library], [TLS_Library] and [PK_Library]; every statement holds
      for all their implementations.  Two small implementations are given
      to run the model on concrete inputs. *)

From Stdlib Require Import String ZArith List Bool Lia.
From Stdlib.Strings Require Import Byte.
Import ListNotations.
Local Open Scope Z_scope.

(* ================================================================= *)
(** * Part I: the model *)
(* ================================================================= *)

(** ** Exceptions *)

(** The alert codes named in [tls_callbacks.cpp], and [InsufficientSecurity],
    which the stock policy raises for weak peer keys. *)
Inductive Alert : Set :=
| BadCertificate
| IllegalParameter
| DecodeError
| HandshakeFailure
| InsufficientSecurity.

(** Exception classes.  A class derived from [Decoding_Error] is represented
    by [Decoding_Error] itself: a handler [catch(const Decoding_Error&)]
    cannot tell them apart.  [Other_Exception] stands for any class the two
    files never name. *)
Inductive exception : Set :=
| Invalid_Argument (what : string)
| Invalid_State (what : string)
| Internal_Error (what : string)
| Decoding_Error (what : string)
| Encoding_Error (what : string)
| Illegal_Point
| TLS_Exception (alert : Alert) (what : string)
| Other_Exception (what : string).

Inductive result (A : Type) : Type :=
| OK (a : A)
| Throw (e : exception).
Arguments OK {A} a.
Arguments Throw {A} e.

Definition rbind {A B : Type} (r : result A) (k : A -> result B) : result B :=
  match r with
  | OK a => k a
  | Throw e => Throw e
  end.

Declare Scope result_scope.
Delimit Scope result_scope with result.
Notation "x <- r ;; k" := (rbind r (fun x => k))
  (at level 61, r at next level, right associativity) : result_scope.
Notation "' p <- r ;; k" := (rbind r (fun x => let p := x in k))
  (at level 61, p pattern, r at next level, right associativity) : result_scope.

(** ** Bytes *)

Definition Z_of_byte (b : byte) : Z := Z.of_N (Byte.to_N b).

Definition byte_of_Z (z : Z) : byte :=
  match Byte.of_N (Z.to_N (z mod 256)) with
  | Some b => b
  | None => x00
  end.

(** ** BigInt *)

Module BigInt.

(** Modelled from the spec: the large-integer library is not in src/.  The
    spec describes the scalar's serialised form as "its minimal fixed-width
    big-endian byte form"; a [BigInt] is a sign and a magnitude, and the
    byte-level operations below read and write the magnitude only. *)

Definition bits (n : Z) : Z :=
  if n =? 0 then 0 else Z.log2 (Z.abs n) + 1.

Definition bytes (n : Z) : nat := Z.to_nat ((bits n + 7) / 8).

(** [len] bytes, most significant first, of a non-negative [m]. *)
Fixpoint binary_encode (m : Z) (len : nat) : list byte :=
  match len with
  | O => []
  | S l => binary_encode (m / 256) l ++ [byte_of_Z (m mod 256)]
  end.

Definition encode_1363 (n : Z) (len : nat) : result (list byte) :=
  if (len <? bytes n)%nat
  then Throw (Encoding_Error "encode_1363: n is too large to encode properly")
  else OK (binary_encode (Z.abs n) len).

(** [BigInt::decode(buf, length)]: big-endian, always non-negative. *)
Definition decode (buf : list byte) : Z :=
  fold_left (fun acc b => acc * 256 + Z_of_byte b) buf 0.

End BigInt.

(** ** ASN.1 DER encoding and BER decoding *)

Module DER.

(** Modelled from the spec: the generic ASN.1 engine ([DER_Encoder],
    [BER_Decoder]) is not in src/.  The spec fixes the key format as "a
    structured (tag + length + value) sequence containing a fixed version
    integer (1) followed by the secret scalar as a byte string".  Lengths are
    definite: one byte below 128, otherwise [0x80 | k] followed by the length
    in [k] big-endian bytes.  The decoder reads single-byte tags and definite
    lengths; anything else is a decoding error. *)

Definition SEQUENCE : byte := x30.      (* SEQUENCE, constructed *)
Definition INTEGER : byte := x02.
Definition OCTET_STRING : byte := x04.

Definition encode_length (len : nat) : list byte :=
  let n := Z.of_nat len in
  if n <=? 127 then [byte_of_Z n]
  else
    let k := BigInt.bytes n in
    byte_of_Z (Z.lor 128 (Z.of_nat k)) :: BigInt.binary_encode n k.

Definition add_object (tag : byte) (contents : list byte) : list byte :=
  tag :: encode_length (length contents) ++ contents.

(** Contents octets of an INTEGER: two's complement, with a leading zero
    byte when the top bit of a non-negative value would otherwise be set. *)
Definition integer_contents (n : Z) : list byte :=
  if n =? 0 then [x00]
  else
    let extra_zero := if (BigInt.bits n) mod 8 =? 0 then 1%nat else 0%nat in
    let len := (extra_zero + BigInt.bytes n)%nat in
    BigInt.binary_encode (n mod 256 ^ Z.of_nat len) len.

Definition encode_integer (n : Z) : list byte :=
  add_object INTEGER (integer_contents n).

Definition encode_octet_string (octets : list byte) : list byte :=
  add_object OCTET_STRING octets.

(** [start_cons(SEQUENCE) ... end_cons()] around already encoded members. *)
Definition encode_sequence (members : list byte) : list byte :=
  add_object SEQUENCE members.

Local Open Scope result_scope.

Definition decode_length (src : list byte) : result (nat * list byte) :=
  match src with
  | [] => Throw (Decoding_Error "BER: length field missing")
  | b :: rest =>
      let v := Z_of_byte b in
      if v <? 128 then OK (Z.to_nat v, rest)
      else
        let k := Z.to_nat (Z.land v 127) in
        if (k =? 0)%nat
        then Throw (Decoding_Error "BER: indefinite length")
        else if (length rest <? k)%nat
        then Throw (Decoding_Error "BER: length field truncated")
        else OK (Z.to_nat (BigInt.decode (firstn k rest)), skipn k rest)
  end.

(** One object off the front of [src]: its tag, its contents, what follows. *)
Definition get_next_object (src : list byte)
  : result (byte * list byte * list byte) :=
  match src with
  | [] => Throw (Decoding_Error "BER: no more objects")
  | tag :: rest =>
      if Z.land (Z_of_byte tag) 31 =? 31
      then Throw (Decoding_Error "BER: long-form tag")
      else
        ' (len, body) <- decode_length rest ;;
        if (length body <? len)%nat
        then Throw (Decoding_Error "BER: value truncated")
        else OK (tag, firstn len body, skipn len body)
  end.

Definition expect_tag (want got : byte) : result unit :=
  if Byte.eqb want got then OK tt
  else Throw (Decoding_Error "BER: tag mismatch").

(** [start_cons(SEQUENCE)]: the decoder over the sequence's members, and the
    rest of the enclosing source. *)
Definition start_cons (src : list byte) : result (list byte * list byte) :=
  ' (tag, contents, rest) <- get_next_object src ;;
  _ <- expect_tag SEQUENCE tag ;;
  OK (contents, rest).

Definition integer_value (contents : list byte) : Z :=
  match contents with
  | [] => 0
  | b :: _ =>
      let m := BigInt.decode contents in
      if Z_of_byte b <? 128 then m
      else m - 256 ^ Z.of_nat (length contents)
  end.

(** [decode(u32bit&)]: the INTEGER is read as a [BigInt] and converted
    with [BigInt::to_u32bit], which refuses a negative value and a value of
    32 bits or more. *)
Definition decode_u32bit (src : list byte) : result (Z * list byte) :=
  ' (tag, contents, rest) <- get_next_object src ;;
  _ <- expect_tag INTEGER tag ;;
  let n := integer_value contents in
  if (n <? 0) || (32 <=? BigInt.bits n)
  then Throw (Encoding_Error "BigInt::to_u32bit: out of range")
  else OK (n, rest).

(** [decode(buffer, OCTET_STRING)]. *)
Definition decode_octet_string (src : list byte)
  : result (list byte * list byte) :=
  ' (tag, contents, rest) <- get_next_object src ;;
  _ <- expect_tag OCTET_STRING tag ;;
  OK (contents, rest).

Definition verify_end (src : list byte) : result unit :=
  match src with
  | [] => OK tt
  | _ :: _ =>
      Throw (Decoding_Error "BER_Decoder::verify_end called, but data remains")
  end.

Definition end_cons (src : list byte) : result unit :=
  match src with
  | [] => OK tt
  | _ :: _ =>
      Throw (Decoding_Error "BER_Decoder::end_cons called with data left")
  end.

(** A length the long form can carry: at most 127 length bytes. *)
Definition length_encodable (len : nat) : Prop :=
  (BigInt.bytes (Z.of_nat len) <= 127)%nat.

(** A tag that fits one byte. *)
Definition short_tag (tag : byte) : Prop := Z.land (Z_of_byte tag) 31 <> 31.

End DER.

(** ** [ecc_key.cpp]: the EC key model *)

Module ECC_Key.

(** What [ecc_key.cpp] uses from the point-arithmetic, domain-parameter and
    random-number code, none of which is in src/.  [check_invariants p] is
    [false] when [p.check_invariants()] throws [Illegal_Point]. *)
Class EC_Library : Type := {
  CurveGFp : Type;
  PointGFp : Type;
  EC_Domain_Params : Type;
  RandomNumberGenerator : Type;
  curve_eqb : CurveGFp -> CurveGFp -> bool;
  get_curve : EC_Domain_Params -> CurveGFp;
  get_base_point : EC_Domain_Params -> PointGFp;
  get_order : EC_Domain_Params -> Z;
  get_oid : EC_Domain_Params -> string;
  (** [EC_Domain_Params(const MemoryRegion<byte>& ber)] *)
  EC_Domain_Params_decode : list byte -> result EC_Domain_Params;
  point_get_curve : PointGFp -> CurveGFp;
  (** [operator*(const PointGFp&, const BigInt&)] *)
  point_mul : PointGFp -> Z -> PointGFp;
  check_invariants : PointGFp -> bool;
  OS2ECP : list byte -> CurveGFp -> result PointGFp;
  (** [BigInt::random_integer(rng, min, max)] on a range that is not empty
      ([min < max]), with the generator's next state; what it does on an
      empty range is not modelled *)
  random_integer :
    RandomNumberGenerator -> Z -> Z -> Z * RandomNumberGenerator
}.

Inductive EC_Domain_Params_Encoding : Set :=
| EC_DOMPAR_ENC_EXPLICIT
| EC_DOMPAR_ENC_IMPLICITCA
| EC_DOMPAR_ENC_OID.

Record AlgorithmIdentifier : Type := {
  oid : string;
  parameters : list byte
}.

Section Keys.
Context {L : EC_Library}.
Local Open Scope result_scope.

Record EC_PublicKey : Type := {
  domain_params : EC_Domain_Params;
  public_key : PointGFp;
  domain_encoding : EC_Domain_Params_Encoding
}.

(** [EC_PrivateKey] derives from [EC_PublicKey] and adds the scalar. *)
Record EC_PrivateKey : Type := {
  as_public : EC_PublicKey;
  private_key : Z
}.

Definition domain (k : EC_PublicKey) : EC_Domain_Params := domain_params k.
Definition public_point (k : EC_PublicKey) : PointGFp := public_key k.

(** [EC_PublicKey(const EC_Domain_Params&, const PointGFp&)] *)
Definition EC_PublicKey_from_point (dom_par : EC_Domain_Params)
  (pub_point : PointGFp) : result EC_PublicKey :=
  let this := {| domain_params := dom_par;
                 public_key := pub_point;
                 domain_encoding := EC_DOMPAR_ENC_EXPLICIT |} in
  if negb (curve_eqb (get_curve (domain this))
                     (point_get_curve (public_point this)))
  then Throw (Invalid_Argument "EC_PublicKey: curve mismatch in constructor")
  else if check_invariants (public_key this)
  then OK this
  else Throw (Invalid_State "Public key failed invariant check").

(** [EC_PublicKey(const AlgorithmIdentifier&, const MemoryRegion<byte>&)] *)
Definition EC_PublicKey_decode (alg_id : AlgorithmIdentifier)
  (key_bits : list byte) : result EC_PublicKey :=
  dom <- EC_Domain_Params_decode (parameters alg_id) ;;
  pt <- OS2ECP key_bits (get_curve dom) ;;
  let this := {| domain_params := dom;
                 public_key := pt;
                 domain_encoding := EC_DOMPAR_ENC_EXPLICIT |} in
  if check_invariants (public_point this)
  then OK this
  else Throw (Decoding_Error "Invalid public point; not on curve").

(** [EC_PrivateKey::private_value] *)
Definition private_value (k : EC_PrivateKey) : result Z :=
  if private_key k =? 0
  then Throw (Invalid_State "EC_PrivateKey::private_value - uninitialized")
  else OK (private_key k).

(** [EC_PrivateKey(const EC_Domain_Params&, const BigInt&)] *)
Definition EC_PrivateKey_from_scalar (dom_par : EC_Domain_Params)
  (priv_key : Z) : result EC_PrivateKey :=
  OK {| as_public :=
          {| domain_params := dom_par;
             public_key := point_mul (get_base_point dom_par) priv_key;
             domain_encoding := EC_DOMPAR_ENC_EXPLICIT |};
        private_key := priv_key |}.

(** [EC_PrivateKey(RandomNumberGenerator&, const EC_Domain_Params&)];
    the generator's state afterwards is returned with the outcome. *)
Definition EC_PrivateKey_generate (rng : RandomNumberGenerator)
  (dom_par : EC_Domain_Params)
  : result EC_PrivateKey * RandomNumberGenerator :=
  let (x, rng') := random_integer rng 1 (get_order dom_par) in
  let pub := point_mul (get_base_point dom_par) x in
  (if check_invariants pub
   then OK {| as_public :=
                {| domain_params := dom_par;
                   public_key := pub;
                   domain_encoding := EC_DOMPAR_ENC_EXPLICIT |};
              private_key := x |}
   else Throw (Internal_Error "ECC private key generation failed"),
   rng').

(** [EC_PrivateKey::pkcs8_private_key] *)
Definition pkcs8_private_key (k : EC_PrivateKey) : result (list byte) :=
  octets <- BigInt.encode_1363 (private_key k)
                               (BigInt.bytes (private_key k)) ;;
  OK (DER.encode_sequence
        (DER.encode_integer 1 ++ DER.encode_octet_string octets)).

(** [EC_PrivateKey(const AlgorithmIdentifier&, const MemoryRegion<byte>&)] *)
Definition EC_PrivateKey_decode (alg_id : AlgorithmIdentifier)
  (key_bits : list byte) : result EC_PrivateKey :=
  dom <- EC_Domain_Params_decode (parameters alg_id) ;;
  ' (members, _) <- DER.start_cons key_bits ;;
  ' (version, members1) <- DER.decode_u32bit members ;;
  ' (octstr_secret, members2) <- DER.decode_octet_string members1 ;;
  _ <- DER.verify_end members2 ;;
  _ <- DER.end_cons members2 ;;
  if negb (version =? 1)
  then Throw (Decoding_Error "Wrong key format version for EC key")
  else
    let x := BigInt.decode octstr_secret in
    let pub := point_mul (get_base_point dom) x in
    if check_invariants pub
    then OK {| as_public :=
                 {| domain_params := dom;
                    public_key := pub;
                    domain_encoding := EC_DOMPAR_ENC_EXPLICIT |};
               private_key := x |}
    else Throw (Internal_Error "Loaded ECC private key failed self test").

(** The public point is the scalar multiple of the base point, the state in
    which each of the three constructors leaves the key. *)
Definition in_sync (k : EC_PrivateKey) : Prop :=
  public_key (as_public k)
  = point_mul (get_base_point (domain (as_public k))) (private_key k).

(** The key the explicit-scalar constructor stores. *)
Definition stored_key (dom_par : EC_Domain_Params) (priv_key : Z)
  : EC_PrivateKey :=
  {| as_public :=
       {| domain_params := dom_par;
          public_key := point_mul (get_base_point dom_par) priv_key;
          domain_encoding := EC_DOMPAR_ENC_EXPLICIT |};
     private_key := priv_key |}.

End Keys.

End ECC_Key.

(** ** [tls_callbacks.cpp]: the default TLS callbacks *)

Module TLS_Callbacks.

(** Modelled from the spec: the usage enumeration is declared outside src/;
    the spec distinguishes "server-auth vs. other". *)
Inductive Usage_Type : Set :=
| UNSPECIFIED
| TLS_SERVER_AUTH
| TLS_CLIENT_AUTH
| CERTIFICATE_AUTHORITY
| OCSP_RESPONDER
| ENCRYPTION.

Definition Usage_Type_eqb (a b : Usage_Type) : bool :=
  match a, b with
  | UNSPECIFIED, UNSPECIFIED
  | TLS_SERVER_AUTH, TLS_SERVER_AUTH
  | TLS_CLIENT_AUTH, TLS_CLIENT_AUTH
  | CERTIFICATE_AUTHORITY, CERTIFICATE_AUTHORITY
  | OCSP_RESPONDER, OCSP_RESPONDER
  | ENCRYPTION, ENCRYPTION => true
  | _, _ => false
  end.

(** Finite-field group: modulus, generator, subgroup order. *)
Record DL_Group : Set := {
  get_p : Z;
  get_g : Z;
  get_q : Z
}.

Record Path_Validation_Restrictions : Set := {
  require_revocation_information : bool;
  minimum_key_strength : Z
}.

Record Path_Validation_Result : Set := {
  successful_validation : bool;
  result_string : string
}.

(** What [tls_callbacks.cpp] uses from headers and libraries outside src/:
    the protocol-version and group enumerations with their classifiers, the
    group tables, the certificate and OCSP types, and path validation.
    [BOTAN_HAS_CURVE_25519] is the build flag of the same name. *)
Class TLS_Library : Type := {
  Protocol_Version : Type;
  is_pre_tls_13 : Protocol_Version -> bool;
  X509_Certificate : Type;
  Certificate_Store : Type;
  OCSP_Response : Type;
  time_point : Type;
  milliseconds : Type;
  RandomNumberGenerator : Type;
  (** [OCSP::Response(const std::vector<uint8_t>&)] *)
  OCSP_Response_parse : list byte -> result OCSP_Response;
  x509_path_validate :
    list X509_Certificate -> Path_Validation_Restrictions ->
    list Certificate_Store -> string -> Usage_Type -> time_point ->
    milliseconds -> list (option OCSP_Response) -> Path_Validation_Result;
  Group_Params : Type;
  is_dh : Group_Params -> bool;
  is_ecdh : Group_Params -> bool;
  is_x25519 : Group_Params -> bool;
  group_param_to_string : Group_Params -> string;
  (** [DL_Group(const std::string& name)] *)
  DL_Group_from_name : string -> result DL_Group;
  EC_Group : Type;
  EC_Point : Type;
  (** [EC_Group(const std::string& name)] *)
  EC_Group_from_name : string -> result EC_Group;
  (** [EC_Group::OS2ECP] *)
  EC_Group_OS2ECP : EC_Group -> list byte -> result EC_Point;
  BOTAN_HAS_CURVE_25519 : bool
}.

Section Types.
Context {L : TLS_Library}.

Record Session : Type := {
  version : Protocol_Version;
  (** [lifetime_hint().count()], in seconds *)
  lifetime_hint : Z
}.

(** [std::variant<TLS::Group_Params, DL_Group>] *)
Inductive Group : Type :=
| Named (group_params : Group_Params)
| Explicit (dl_group : DL_Group).

(** The key objects the callbacks build.  A private key is named by the
    constructor call that makes it: [DH_PrivateKey rng dl_group] stands for
    what [std::make_unique<DH_PrivateKey>(rng, dl_group)] yields.  The
    constructors are library code; what they do with the generator is not
    modelled. *)
Inductive PK_Key_Agreement_Key : Type :=
| DH_PrivateKey (rng : RandomNumberGenerator) (dl_group : DL_Group)
| ECDH_PrivateKey (rng : RandomNumberGenerator) (ec_group : EC_Group)
| X25519_PrivateKey (rng : RandomNumberGenerator).

Inductive Public_Key : Type :=
| DH_PublicKey (dl_group : DL_Group) (y : Z)
| ECDH_PublicKey (ec_group : EC_Group) (pt : EC_Point)
| Curve25519_PublicKey (pub : list byte).

(** The policy object, as far as the callbacks consult it.
    [check_peer_key_acceptable] returns normally or throws. *)
Record Policy : Type := {
  require_cert_revocation_info : bool;
  minimum_signature_strength : Z;
  check_peer_key_acceptable : Public_Key -> result unit
}.

(** The two virtual members of the callbacks object that
    [tls_verify_cert_chain] calls. *)
Record Callbacks : Type := {
  tls_current_timestamp : time_point;
  tls_verify_cert_chain_ocsp_timeout : milliseconds
}.

(** Calls that leave the file, in the order they are made. *)
Inductive Event : Type :=
| Ev_require_cert_revocation_info
| Ev_minimum_signature_strength
| Ev_tls_current_timestamp
| Ev_tls_verify_cert_chain_ocsp_timeout
| Ev_x509_path_validate
    (cert_chain : list X509_Certificate)
    (restrictions : Path_Validation_Restrictions)
    (trusted_roots : list Certificate_Store)
    (hostname : string) (usage : Usage_Type)
    (now : time_point) (timeout : milliseconds)
    (ocsp_responses : list (option OCSP_Response))
| Ev_check_peer_key_acceptable (peer_key : Public_Key)
| Ev_derive_key (sk : PK_Key_Agreement_Key) (key_len : Z)
    (peer_value : list byte).

End Types.

(** The generic key-agreement primitive: [pk.public_value()] and
    [PK_Key_Agreement(sk, rng, kdf).derive_key(key_len, value).bits_of()]. *)
Class PK_Library {L : TLS_Library} : Type := {
  public_value : Public_Key -> list byte;
  derive_key :
    PK_Key_Agreement_Key -> RandomNumberGenerator -> string -> Z ->
    list byte -> result (list byte)
}.

(** A computation: the calls it made, and how it ended. *)
Definition M {L : TLS_Library} (A : Type) : Type :=
  (list Event * result A)%type.

Definition ret {L : TLS_Library} {A : Type} (a : A) : M A := ([], OK a).

Definition throw {L : TLS_Library} {A : Type} (e : exception) : M A :=
  ([], Throw e).

Definition lift {L : TLS_Library} {A : Type} (r : result A) : M A := ([], r).

Definition call {L : TLS_Library} {A : Type} (ev : Event) (r : result A)
  : M A := ([ev], r).

Definition bind {L : TLS_Library} {A B : Type} (m : M A) (k : A -> M B)
  : M B :=
  match m with
  | (log, OK a) => let (log', r) := k a in (log ++ log', r)
  | (log, Throw e) => (log, Throw e)
  end.

Definition trace {L : TLS_Library} {A : Type} (m : M A) : list Event :=
  fst m.

Declare Scope callback_scope.
Delimit Scope callback_scope with callback.
Notation "x <- m ;; k" := (bind m (fun x => k))
  (at level 61, m at next level, right associativity) : callback_scope.

Section Callbacks.
Context {L : TLS_Library} {PK : PK_Library}.

(** [TLS::Callbacks::tls_should_persist_resumption_information] *)
Definition tls_should_persist_resumption_information (session : Session)
  : bool :=
  (0 <? lifetime_hint session) || is_pre_tls_13 (version session).

(** [TLS::Callbacks::tls_verify_cert_chain] *)
Definition tls_verify_cert_chain (this : Callbacks)
  (cert_chain : list X509_Certificate)
  (ocsp_responses : list (option OCSP_Response))
  (trusted_roots : list Certificate_Store)
  (usage : Usage_Type) (hostname : string) (policy : Policy) : M unit :=
  (match cert_chain with
   | [] => throw (Invalid_Argument "Certificate chain was empty")
   | _ :: _ =>
       rev_info <- call Ev_require_cert_revocation_info
                     (OK (require_cert_revocation_info policy)) ;;
       strength <- call Ev_minimum_signature_strength
                     (OK (minimum_signature_strength policy)) ;;
       let restrictions :=
         {| require_revocation_information := rev_info;
            minimum_key_strength := strength |} in
       let host :=
         if Usage_Type_eqb usage TLS_SERVER_AUTH then hostname
         else EmptyString in
       now <- call Ev_tls_current_timestamp
                (OK (tls_current_timestamp this)) ;;
       timeout <- call Ev_tls_verify_cert_chain_ocsp_timeout
                    (OK (tls_verify_cert_chain_ocsp_timeout this)) ;;
       result <- call (Ev_x509_path_validate cert_chain restrictions
                         trusted_roots host usage now timeout ocsp_responses)
                   (OK (x509_path_validate cert_chain restrictions
                          trusted_roots host usage now timeout
                          ocsp_responses)) ;;
       if negb (successful_validation result)
       then throw (TLS_Exception BadCertificate
                     ("Certificate validation failure: "
                      ++ result_string result))
       else ret tt
   end)%callback.

(** [TLS::Callbacks::tls_parse_ocsp_response] *)
Definition tls_parse_ocsp_response (raw_response : list byte)
  : result (option OCSP_Response) :=
  match OCSP_Response_parse raw_response with
  | OK response => OK (Some response)
  | Throw (Decoding_Error _) => OK None
  | Throw e => Throw e
  end.

Definition BOTAN_ASSERT_NOMSG (expr : bool) : result unit :=
  if expr then OK tt else Throw (Internal_Error "Assertion failed").

Definition holds_alternative_Group_Params (group : Group) : bool :=
  match group with
  | Named _ => true
  | Explicit _ => false
  end.

(** [std::get<TLS::Group_Params>] *)
Definition get_Group_Params (group : Group) : result Group_Params :=
  match group with
  | Named group_params => OK group_params
  | Explicit _ => Throw (Other_Exception "std::bad_variant_access")
  end.

(** [is_dh_group]: [holds_alternative<DL_Group>(group) ||
    is_dh(std::get<Group_Params>(group))], where [||] does not evaluate
    [std::get] when the variant holds a [DL_Group]. *)
Definition is_dh_group (group : Group) : bool :=
  match group with
  | Explicit _ => true
  | Named group_params => is_dh group_params
  end.

(** [get_dl_group] *)
Definition get_dl_group (group : Group) : result DL_Group :=
  (_ <- BOTAN_ASSERT_NOMSG (is_dh_group group) ;;
   match group with
   | Explicit dl_group => OK dl_group
   | Named group_param =>
       DL_Group_from_name (group_param_to_string group_param)
   end)%result.

(** [TLS::Callbacks::tls_generate_ephemeral_key] *)
Definition tls_generate_ephemeral_key (group : Group)
  (rng : RandomNumberGenerator) : result PK_Key_Agreement_Key :=
  (if is_dh_group group
   then
     dl_group <- get_dl_group group ;;
     OK (DH_PrivateKey rng dl_group)
   else
     _ <- BOTAN_ASSERT_NOMSG (holds_alternative_Group_Params group) ;;
     group_params <- get_Group_Params group ;;
     if is_ecdh group_params
     then
       ec_group <- EC_Group_from_name (group_param_to_string group_params) ;;
       OK (ECDH_PrivateKey rng ec_group)
     else if BOTAN_HAS_CURVE_25519 && is_x25519 group_params
     then OK (X25519_PrivateKey rng)
     else Throw (TLS_Exception DecodeError
            "cannot create a key offering without a group definition")
  )%result.

(** The lambda [agree] of [tls_ephemeral_key_agreement]. *)
Definition agree (rng : RandomNumberGenerator) (sk : PK_Key_Agreement_Key)
  (pk : Public_Key) : M (list byte) :=
  call (Ev_derive_key sk 0 (public_value pk))
       (derive_key sk rng "Raw" 0 (public_value pk)).

Definition policy_check_peer_key_acceptable (policy : Policy)
  (peer_key : Public_Key) : M unit :=
  call (Ev_check_peer_key_acceptable peer_key)
       (check_peer_key_acceptable policy peer_key).

(** [TLS::Callbacks::tls_ephemeral_key_agreement] *)
Definition tls_ephemeral_key_agreement (group : Group)
  (private_key : PK_Key_Agreement_Key) (public_value : list byte)
  (rng : RandomNumberGenerator) (policy : Policy) : M (list byte) :=
  (if is_dh_group group
   then
     dl_group <- lift (get_dl_group group) ;;
     let Y := BigInt.decode public_value in
     if (Y <=? 1) || (Y >=? get_p dl_group - 1)
     then throw (TLS_Exception IllegalParameter
                   "Server sent bad DH key for DHE exchange")
     else
       let peer_key := DH_PublicKey dl_group Y in
       _ <- policy_check_peer_key_acceptable policy peer_key ;;
       agree rng private_key peer_key
   else
     _ <- lift (BOTAN_ASSERT_NOMSG (holds_alternative_Group_Params group)) ;;
     group_params <- lift (get_Group_Params group) ;;
     if is_ecdh group_params
     then
       ec_group <- lift (EC_Group_from_name
                           (group_param_to_string group_params)) ;;
       pt <- lift (EC_Group_OS2ECP ec_group public_value) ;;
       let peer_key := ECDH_PublicKey ec_group pt in
       _ <- policy_check_peer_key_acceptable policy peer_key ;;
       agree rng private_key peer_key
     else if BOTAN_HAS_CURVE_25519 && is_x25519 group_params
     then
       if negb (Nat.eqb (length public_value) 32)
       then throw (TLS_Exception HandshakeFailure "Invalid X25519 key size")
       else
         let peer_key := Curve25519_PublicKey public_value in
         _ <- policy_check_peer_key_acceptable policy peer_key ;;
         agree rng private_key peer_key
     else throw (TLS_Exception IllegalParameter
                   "Did not recognize the key exchange group")
  )%callback.

(** *** Vocabulary for the statements *)

(** Which kind of key exchange a key object belongs to. *)
Inductive Family : Set := Finite_Field | Elliptic_Curve | Fixed_Curve.

Definition private_family (k : PK_Key_Agreement_Key) : Family :=
  match k with
  | DH_PrivateKey _ _ => Finite_Field
  | ECDH_PrivateKey _ _ => Elliptic_Curve
  | X25519_PrivateKey _ => Fixed_Curve
  end.

Definition public_family (k : Public_Key) : Family :=
  match k with
  | DH_PublicKey _ _ => Finite_Field
  | ECDH_PublicKey _ _ => Elliptic_Curve
  | Curve25519_PublicKey _ => Fixed_Curve
  end.

(** The family a group selects, read off the dispatch both operations
    share. *)
Definition selected_family (group : Group) : Family :=
  if is_dh_group group then Finite_Field
  else match group with
       | Named gp => if is_ecdh gp then Elliptic_Curve else Fixed_Curve
       | Explicit _ => Finite_Field
       end.

(** The policy check followed at once by the agreement primitive: the log
    and outcome of the last two statements of each branch of
    [tls_ephemeral_key_agreement]. *)
Definition check_then_agree (policy : Policy) (rng : RandomNumberGenerator)
  (sk : PK_Key_Agreement_Key) (pk : Public_Key) : M (list byte) :=
  match check_peer_key_acceptable policy pk with
  | OK _ =>
      ([Ev_check_peer_key_acceptable pk;
        Ev_derive_key sk 0 (public_value pk)],
       derive_key sk rng "Raw" 0 (public_value pk))
  | Throw e => ([Ev_check_peer_key_acceptable pk], Throw e)
  end.


End Callbacks.

End TLS_Callbacks.

(** ** [ecc_key.cpp]: [set_parameter_encoding] *)

Module ECC_Key_Encoding.

Import ECC_Key.

(** The argument of [set_parameter_encoding], an object of the enumeration
    type: one of its three enumerators, or some other value of the
    underlying integer type, which C++ lets a caller pass by a cast. *)
Inductive encoding_argument : Set :=
| Enumerator (form : EC_Domain_Params_Encoding)
| Other_value (code : Z).

Definition is_EC_DOMPAR_ENC_OID (form : EC_Domain_Params_Encoding) : bool :=
  match form with
  | EC_DOMPAR_ENC_OID => true
  | _ => false
  end.

(** [EC_PublicKey::set_parameter_encoding]; the key after the call. *)
Definition set_parameter_encoding {L : EC_Library} (this : EC_PublicKey)
  (form : encoding_argument) : result EC_PublicKey :=
  match form with
  | Other_value _ =>
      Throw (Invalid_Argument
               "Invalid encoding form for EC-key object specified")
  | Enumerator f =>
      if is_EC_DOMPAR_ENC_OID f
         && String.eqb (get_oid (domain_params this)) ""
      then Throw (Invalid_Argument
                    ("Invalid encoding form OID specified for "
                     ++ "EC-key object whose corresponding domain "
                     ++ "parameters are without oid"))
      else OK {| domain_params := domain_params this;
                 public_key := public_key this;
                 domain_encoding := f |}
  end.

End ECC_Key_Encoding.

(** ** [tls_callbacks.cpp]: [tls_provide_cert_chain_status] *)

Module TLS_Status.

(** [result[0] = status] on a vector; [None] when the vector is empty. *)
Definition assign_front {A : Type} (v : list A) (a : A) : option (list A) :=
  match v with
  | [] => None
  | _ :: tl => Some (a :: tl)
  end.

(** [TLS::Callbacks::tls_provide_cert_chain_status].  The virtual member
    [tls_provide_cert_status] is the argument of the same name; the
    certificate and status-request types are those of the caller. *)
Definition tls_provide_cert_chain_status {Certificate Status_Request : Type}
  (tls_provide_cert_status :
     list Certificate -> Status_Request -> list byte)
  (chain : list Certificate) (csr : Status_Request) : list (list byte) :=
  let result := repeat ([] : list byte) (length chain) in
  match chain with
  | [] => result
  | _ :: _ =>
      match assign_front result (tls_provide_cert_status chain csr) with
      | Some result' => result'
      | None => result
      end
  end.

End TLS_Status.

(** ** [timer.cpp] *)

Module Timer.

Definition u32bit (z : Z) : Z := z mod 2 ^ 32.
Definition u64bit (z : Z) : Z := z mod 2 ^ 64.

Definition NANOSECONDS_UNITS : Z := 1000000000.

(** [Timer::combine_timers] on three [u32bit] arguments.  [parts *= ...]
    multiplies in 64 bits and stores into the 32-bit [parts]; the sum is
    taken in 64 bits.  [None]: [parts_hz] is 0 and the division is
    undefined. *)
Definition combine_timers (seconds parts parts_hz : Z) : option Z :=
  if parts_hz =? 0 then None
  else
    let parts' := u32bit (u64bit (parts * (NANOSECONDS_UNITS / parts_hz))) in
    Some (u64bit (u64bit (seconds * NANOSECONDS_UNITS) + parts')).

Definition byte_xor (a b : byte) : byte :=
  byte_of_Z (Z.lxor (Z_of_byte a) (Z_of_byte b)).

(** [out[i] ^= b]; [None] when [i] is outside the buffer. *)
Fixpoint xor_at (out : list byte) (i : nat) (b : byte)
  : option (list byte) :=
  match out, i with
  | [], _ => None
  | a :: tl, O => Some (byte_xor a b :: tl)
  | a :: tl, S i' =>
      match xor_at tl i' b with
      | Some tl' => Some (a :: tl')
      | None => None
      end
  end.

(** The loop of [fast_poll] from index [j], [count] iterations to go.
    [get_byte] is the byte selector of [loadstor.h], outside src/. *)
Fixpoint poll_loop (get_byte : nat -> Z -> byte) (clock_value : Z)
  (length : nat) (j count : nat) (out : list byte) : option (list byte) :=
  match count with
  | O => Some out
  | S count' =>
      match xor_at out (j mod length) (get_byte j clock_value) with
      | Some out' => poll_loop get_byte clock_value length (S j) count' out'
      | None => None
      end
  end.

(** [Timer::fast_poll], given the value [this->clock()] returns: the buffer
    afterwards and the returned count.  [None]: [length] is 0 ([j % length]
    is undefined) or a write falls outside the buffer. *)
Definition fast_poll (get_byte : nat -> Z -> byte) (clock_value : Z)
  (out : list byte) (length : nat) : option (list byte * nat) :=
  if (length =? 0)%nat then None
  else
    match poll_loop get_byte clock_value length 0 8 out with
    | Some out' => Some (out', if (length <? 8)%nat then length else 8%nat)
    | None => None
    end.

(** [Timer::slow_poll] *)
Definition slow_poll (get_byte : nat -> Z -> byte) (clock_value : Z)
  (out : list byte) (length : nat) : option (list byte * nat) :=
  fast_poll get_byte clock_value out length.

End Timer.

(** ** Small concrete libraries, for running the model on inputs *)

Module Toy_EC.

(** Textbook affine arithmetic on [y^2 = x^3 + a x + b] over a prime field;
    [coords = None] is the point at infinity. *)
Record curve : Set := { prime : Z; coef_a : Z; coef_b : Z }.
Record point : Set := { on : curve; coords : option (Z * Z) }.
Record domain : Set := {
  dom_curve : curve;
  dom_base : point;
  dom_order : Z;
  dom_oid : string
}.

Definition curve_eq (c d : curve) : bool :=
  (prime c =? prime d) && (coef_a c =? coef_a d) && (coef_b c =? coef_b d).

Definition inv_mod (p x : Z) : Z := (x ^ (p - 2)) mod p.

Definition zero (c : curve) : point := {| on := c; coords := None |}.

Definition neg (P : point) : point :=
  match coords P with
  | None => P
  | Some (x, y) =>
      {| on := on P; coords := Some (x, (- y) mod prime (on P)) |}
  end.

Definition add (P Q : point) : point :=
  let c := on P in
  let p := prime c in
  match coords P, coords Q with
  | None, _ => Q
  | _, None => P
  | Some (x1, y1), Some (x2, y2) =>
      if (x1 =? x2) && ((y1 + y2) mod p =? 0) then zero c
      else
        let s :=
          if x1 =? x2
          then ((3 * x1 * x1 + coef_a c) * inv_mod p (2 * y1)) mod p
          else ((y2 - y1) * inv_mod p (x2 - x1)) mod p in
        let x3 := (s * s - x1 - x2) mod p in
        {| on := c; coords := Some (x3, (s * (x1 - x3) - y1) mod p) |}
  end.

Fixpoint mul_pos (P : point) (n : positive) : point :=
  match n with
  | xH => P
  | xO n' => let Q := mul_pos P n' in add Q Q
  | xI n' => let Q := mul_pos P n' in add P (add Q Q)
  end.

Definition mul (P : point) (n : Z) : point :=
  match n with
  | Z0 => zero (on P)
  | Zpos n' => mul_pos P n'
  | Zneg n' => neg (mul_pos P n')
  end.

Definition on_curve (P : point) : bool :=
  match coords P with
  | None => true
  | Some (x, y) =>
      let c := on P in
      (y * y - (x * x * x + coef_a c * x + coef_b c)) mod prime c =? 0
  end.

(** [y^2 = x^3 + 2x + 2] over [F_17], base point [(5, 1)] of order 19. *)
Definition c17 : curve := {| prime := 17; coef_a := 2; coef_b := 2 |}.
Definition G17 : point := {| on := c17; coords := Some (5, 1) |}.
Definition dom17 : domain :=
  {| dom_curve := c17; dom_base := G17; dom_order := 19;
     dom_oid := "toy17" |}.

(** The same curve with a base point that is not on it. *)
Definition H17 : point := {| on := c17; coords := Some (5, 2) |}.
Definition dom17_off : domain :=
  {| dom_curve := c17; dom_base := H17; dom_order := 19;
     dom_oid := "toy17-off" |}.

(** Domain parameters travel as the single byte [01]; a point as [00]
    (infinity) or [04 x y]. *)
Definition decode_domain (ber : list byte) : result domain :=
  match ber with
  | [x01] => OK dom17
  | _ => Throw (Decoding_Error "unknown domain")
  end.

Definition decode_point (os : list byte) (c : curve) : result point :=
  match os with
  | [x00] => OK (zero c)
  | [x04; x; y] =>
      OK {| on := c; coords := Some (Z_of_byte x, Z_of_byte y) |}
  | _ => Throw (Decoding_Error "OS2ECP: invalid encoding")
  end.

(** A counter in place of a random source. *)
Definition next_integer (rng : Z) (lo hi : Z) : Z * Z :=
  (lo + rng mod (hi - lo), rng + 1).

Definition library : ECC_Key.EC_Library :=
  {| ECC_Key.CurveGFp := curve;
     ECC_Key.PointGFp := point;
     ECC_Key.EC_Domain_Params := domain;
     ECC_Key.RandomNumberGenerator := Z;
     ECC_Key.curve_eqb := curve_eq;
     ECC_Key.get_curve := dom_curve;
     ECC_Key.get_base_point := dom_base;
     ECC_Key.get_order := dom_order;
     ECC_Key.get_oid := dom_oid;
     ECC_Key.EC_Domain_Params_decode := decode_domain;
     ECC_Key.point_get_curve := on;
     ECC_Key.point_mul := mul;
     ECC_Key.check_invariants := on_curve;
     ECC_Key.OS2ECP := decode_point;
     ECC_Key.random_integer := next_integer |}.

Definition alg17 : ECC_Key.AlgorithmIdentifier :=
  {| ECC_Key.oid := "toy17"; ECC_Key.parameters := [x01] |}.

End Toy_EC.

Module Toy_TLS.

Import TLS_Callbacks.

(** Protocol versions and group identifiers by their wire codes. *)
Definition TLS_V12 : Z := 771.          (* 0x0303 *)
Definition TLS_V13 : Z := 772.          (* 0x0304 *)
Definition SECP256R1 : Z := 23.
Definition X25519 : Z := 29.
Definition FFDHE_2048 : Z := 256.

Definition group_name (g : Z) : string :=
  if g =? FFDHE_2048 then "ffdhe/ietf/2048"
  else if g =? SECP256R1 then "secp256r1"
  else if g =? X25519 then "x25519"
  else "".

(** A table with one finite-field group, the order-11 subgroup modulo 23. *)
Definition modp23 : DL_Group := {| get_p := 23; get_g := 2; get_q := 11 |}.

Definition dl_group_of_name (name : string) : result DL_Group :=
  if String.eqb name "ffdhe/ietf/2048" then OK modp23
  else Throw (Invalid_Argument "DL_Group: Unknown group").

Definition ec_group_of_name (name : string) : result Toy_EC.domain :=
  if String.eqb name "secp256r1" then OK Toy_EC.dom17
  else Throw (Invalid_Argument "Unknown EC_Group").

Definition os2ecp (g : Toy_EC.domain) (os : list byte)
  : result Toy_EC.point :=
  match Toy_EC.decode_point os (Toy_EC.dom_curve g) with
  | OK pt =>
      if Toy_EC.on_curve pt then OK pt
      else Throw (Decoding_Error "OS2ECP: point not on curve")
  | Throw e => Throw e
  end.

(** An OCSP response parses when it starts with a SEQUENCE tag. *)
Definition parse_ocsp (raw : list byte) : result (list byte) :=
  match raw with
  | x30 :: _ => OK raw
  | _ => Throw (Decoding_Error "BER: expected SEQUENCE")
  end.

(** A chain is accepted when no hostname is asked for or the leaf carries
    that name. *)
Definition validate (chain : list string) (_ : Path_Validation_Restrictions)
  (_ : list (list string)) (hostname : string) (_ : Usage_Type) (_ _ : Z)
  (_ : list (option (list byte))) : Path_Validation_Result :=
  match chain with
  | leaf :: _ =>
      if String.eqb hostname "" || String.eqb hostname leaf
      then {| successful_validation := true; result_string := "Verified" |}
      else {| successful_validation := false;
              result_string := "Certificate does not match provided name" |}
  | [] => {| successful_validation := false;
             result_string := "Certificate chain empty" |}
  end.

Definition library : TLS_Library :=
  {| Protocol_Version := Z;
     is_pre_tls_13 := fun v => v <=? TLS_V12;
     X509_Certificate := string;
     Certificate_Store := list string;
     OCSP_Response := list byte;
     time_point := Z;
     milliseconds := Z;
     RandomNumberGenerator := Z;
     OCSP_Response_parse := parse_ocsp;
     x509_path_validate := validate;
     Group_Params := Z;
     is_dh := fun g => (256 <=? g) && (g <=? 260);
     is_ecdh := fun g => (23 <=? g) && (g <=? 28);
     is_x25519 := fun g => g =? X25519;
     group_param_to_string := group_name;
     DL_Group_from_name := dl_group_of_name;
     EC_Group := Toy_EC.domain;
     EC_Point := Toy_EC.point;
     EC_Group_from_name := ec_group_of_name;
     EC_Group_OS2ECP := os2ecp;
     BOTAN_HAS_CURVE_25519 := true |}.

(** Key agreement that hands back the peer's value. *)
Definition pk_library : @PK_Library library :=
  {| public_value := fun pk : @Public_Key library =>
       match pk with
       | DH_PublicKey _ y => BigInt.binary_encode y 1
       | ECDH_PublicKey _ pt =>
           match Toy_EC.coords pt with
           | Some (x, y) => [x04; byte_of_Z x; byte_of_Z y]
           | None => [x00]
           end
       | Curve25519_PublicKey pub => pub
       end;
     derive_key := fun _ _ _ _ peer_value => OK peer_value |}.

Definition permissive : @Policy library :=
  {| require_cert_revocation_info := false;
     minimum_signature_strength := 110;
     check_peer_key_acceptable := fun _ => OK tt |}.

Definition callbacks : @Callbacks library :=
  @Build_Callbacks library 1700000000 0.

End Toy_TLS.

Module Toy_Timer.

(** Byte [j] of a 64-bit value, most significant first. *)
Definition get_byte (j : nat) (x : Z) : byte :=
  byte_of_Z (Z.shiftr x (8 * (7 - Z.of_nat j))).

End Toy_Timer.

Module Toy_TLS_Strict.

Import TLS_Callbacks.

(** As [Toy_TLS.parse_ocsp], but an empty response is refused with an
    exception that is not a decoding error. *)
Definition parse_ocsp (raw : list byte) : result (list byte) :=
  match raw with
  | [] => Throw (Invalid_Argument "OCSP: empty response")
  | _ :: _ => Toy_TLS.parse_ocsp raw
  end.

Definition library : TLS_Library :=
  {| Protocol_Version := Z;
     is_pre_tls_13 := fun v => v <=? Toy_TLS.TLS_V12;
     X509_Certificate := string;
     Certificate_Store := list string;
     OCSP_Response := list byte;
     time_point := Z;
     milliseconds := Z;
     RandomNumberGenerator := Z;
     OCSP_Response_parse := parse_ocsp;
     x509_path_validate := Toy_TLS.validate;
     Group_Params := Z;
     is_dh := fun g => (256 <=? g) && (g <=? 260);
     is_ecdh := fun g => (23 <=? g) && (g <=? 28);
     is_x25519 := fun g => g =? Toy_TLS.X25519;
     group_param_to_string := Toy_TLS.group_name;
     DL_Group_from_name := Toy_TLS.dl_group_of_name;
     EC_Group := Toy_EC.domain;
     EC_Point := Toy_EC.point;
     EC_Group_from_name := Toy_TLS.ec_group_of_name;
     EC_Group_OS2ECP := Toy_TLS.os2ecp;
     BOTAN_HAS_CURVE_25519 := true |}.

End Toy_TLS_Strict.

Module Toy_Policy.

Import TLS_Callbacks.

(** A policy that refuses finite-field keys over a modulus below 2^10. *)
Definition strict : @Policy Toy_TLS.library :=
  {| require_cert_revocation_info := false;
     minimum_signature_strength := 110;
     check_peer_key_acceptable := fun pk : @Public_Key Toy_TLS.library =>
       match pk with
       | DH_PublicKey dl _ =>
           if get_p dl <? 2 ^ 10
           then Throw (TLS_Exception InsufficientSecurity
                         "DH group is too small")
           else OK tt
       | _ => OK tt
       end |}.

End Toy_Policy.

(* ================================================================= *)
(** * Part II: properties *)
(* ================================================================= *)

(** ** Bytes and big-endian integers *)

Lemma Z_of_byte_range (b : byte) : 0 <= Z_of_byte b < 256.
Proof.
  unfold Z_of_byte. pose proof (Byte.to_N_bounded b). lia.
Qed.

Lemma Z_of_byte_of_Z (z : Z) : Z_of_byte (byte_of_Z z) = z mod 256.
Proof.
  unfold Z_of_byte, byte_of_Z.
  pose proof (Z.mod_pos_bound z 256 ltac:(lia)) as Hr.
  destruct (Byte.of_N (Z.to_N (z mod 256))) as [b|] eqn:E.
  - apply Byte.to_of_N in E. rewrite E. lia.
  - apply Byte.of_N_None_iff in E. lia.
Qed.

Lemma decode_snoc (l : list byte) (b : byte) :
  BigInt.decode (l ++ [b]) = BigInt.decode l * 256 + Z_of_byte b.
Proof. unfold BigInt.decode. now rewrite fold_left_app. Qed.

Lemma decode_nonneg (l : list byte) : 0 <= BigInt.decode l.
Proof.
  induction l as [|b l IH] using rev_ind.
  - cbn. lia.
  - rewrite decode_snoc. pose proof (Z_of_byte_range b). lia.
Qed.

Lemma length_binary_encode (len : nat) :
  forall m, length (BigInt.binary_encode m len) = len.
Proof.
  induction len as [|l IH]; intro m; cbn [BigInt.binary_encode].
  - reflexivity.
  - rewrite length_app, IH. cbn. lia.
Qed.

Lemma decode_binary_encode (len : nat) :
  forall m,
    BigInt.decode (BigInt.binary_encode m len) = m mod 256 ^ Z.of_nat len.
Proof.
  induction len as [|l IH]; intro m.
  - cbn. now rewrite Z.mod_1_r.
  - cbn [BigInt.binary_encode]. rewrite decode_snoc, IH, Z_of_byte_of_Z.
    rewrite Nat2Z.inj_succ, Z.pow_succ_r by lia.
    assert (0 < 256 ^ Z.of_nat l) by (apply Z.pow_pos_nonneg; lia).
    rewrite (Z.rem_mul_r m 256 (256 ^ Z.of_nat l)) by lia.
    rewrite Z.mod_mod by lia. ring.
Qed.

Lemma bits_nonneg (m : Z) : 0 <= BigInt.bits m.
Proof.
  unfold BigInt.bits. destruct (m =? 0); [lia|].
  pose proof (Z.log2_nonneg (Z.abs m)). lia.
Qed.

Lemma bits_bound (m : Z) : 0 <= m -> m < 2 ^ BigInt.bits m.
Proof.
  intro Hm. unfold BigInt.bits. destruct (Z.eqb_spec m 0) as [->|Hne].
  - cbn. lia.
  - rewrite Z.abs_eq by lia. pose proof (Z.log2_spec m ltac:(lia)).
    unfold Z.succ in *. lia.
Qed.

Lemma bytes_bound (m : Z) : 0 <= m -> m < 256 ^ Z.of_nat (BigInt.bytes m).
Proof.
  intro Hm. pose proof (bits_bound m Hm) as Hb.
  pose proof (bits_nonneg m) as Hn.
  unfold BigInt.bytes. rewrite Z2Nat.id by (apply Z.div_pos; lia).
  change 256 with (2 ^ 8).
  rewrite <- Z.pow_mul_r by (try apply Z.div_pos; lia).
  eapply Z.lt_le_trans; [exact Hb|].
  apply Z.pow_le_mono_r; [lia|].
  pose proof (Z.div_mod (BigInt.bits m + 7) 8 ltac:(lia)).
  pose proof (Z.mod_pos_bound (BigInt.bits m + 7) 8 ltac:(lia)). lia.
Qed.

Lemma bytes_le (m : Z) (j : nat) :
  0 <= m < 256 ^ Z.of_nat j -> (BigInt.bytes m <= j)%nat.
Proof.
  intros [Hm Hlt]. unfold BigInt.bytes, BigInt.bits.
  destruct (Z.eqb_spec m 0) as [->|Hne].
  - cbn. lia.
  - rewrite Z.abs_eq by lia.
    assert (Z.log2 m < 8 * Z.of_nat j) as Hl.
    { apply Z.log2_lt_pow2; [lia|].
      rewrite Z.pow_mul_r by lia. exact Hlt. }
    assert ((Z.log2 m + 1 + 7) / 8 <= Z.of_nat j).
    { apply Z.lt_succ_r. apply Z.div_lt_upper_bound; lia. }
    lia.
Qed.

Lemma bytes_pos (m : Z) : 0 < m -> (0 < BigInt.bytes m)%nat.
Proof.
  intro Hm. unfold BigInt.bytes, BigInt.bits.
  destruct (Z.eqb_spec m 0); [lia|].
  pose proof (Z.log2_nonneg (Z.abs m)).
  assert (1 <= (Z.log2 (Z.abs m) + 1 + 7) / 8).
  { apply Z.div_le_lower_bound; lia. }
  lia.
Qed.

(** The minimal-width encoding of a non-negative integer reads back. *)
Lemma decode_encode_minimal (m : Z) :
  0 <= m -> BigInt.decode (BigInt.binary_encode m (BigInt.bytes m)) = m.
Proof.
  intro Hm. rewrite decode_binary_encode.
  apply Z.mod_small. split; [lia | now apply bytes_bound].
Qed.

Lemma encode_1363_minimal (x : Z) :
  0 <= x ->
  BigInt.encode_1363 x (BigInt.bytes x)
  = OK (BigInt.binary_encode x (BigInt.bytes x)).
Proof.
  intro Hx. unfold BigInt.encode_1363.
  rewrite Nat.ltb_irrefl, Z.abs_eq by lia. reflexivity.
Qed.

(** ** DER objects read back *)

Lemma lor_128_small (k : Z) : 0 <= k < 128 -> Z.lor 128 k = 128 + k.
Proof.
  intro Hk.
  assert (Z.land 128 k = 0) as Hl.
  { rewrite <- (Z.mod_small k (2 ^ 7)) by (change (2 ^ 7) with 128; lia).
    rewrite <- Z.land_ones by lia.
    rewrite (Z.land_comm k), Z.land_assoc. reflexivity. }
  pose proof (Z.add_lor_land 128 k). lia.
Qed.

Lemma land_127_high (k : Z) : 0 <= k < 128 -> Z.land (128 + k) 127 = k.
Proof.
  intro Hk. change 127 with (Z.ones 7). rewrite Z.land_ones by lia.
  change (2 ^ 7) with 128.
  rewrite <- (Z.mod_unique (128 + k) 128 1 k); lia.
Qed.

Lemma firstn_exact {A : Type} (l1 l2 : list A) :
  firstn (length l1) (l1 ++ l2) = l1.
Proof.
  rewrite firstn_app, Nat.sub_diag, firstn_all. cbn. apply app_nil_r.
Qed.

Lemma skipn_exact {A : Type} (l1 l2 : list A) :
  skipn (length l1) (l1 ++ l2) = l2.
Proof.
  rewrite skipn_app, Nat.sub_diag, skipn_all. reflexivity.
Qed.

Lemma length_encodable_small (len : nat) :
  Z.of_nat len < 2 ^ 40 -> DER.length_encodable len.
Proof.
  intro H. unfold DER.length_encodable.
  transitivity 5%nat; [|lia]. apply bytes_le.
  change (256 ^ Z.of_nat 5) with (2 ^ 40). lia.
Qed.

Lemma decode_length_encode_length (len : nat) (rest : list byte) :
  DER.length_encodable len ->
  DER.decode_length (DER.encode_length len ++ rest) = OK (len, rest).
Proof.
  unfold DER.length_encodable, DER.encode_length. intro Hk.
  destruct (Z.leb_spec (Z.of_nat len) 127) as [Hs|Hl].
  - cbn [app DER.decode_length]. rewrite Z_of_byte_of_Z.
    rewrite Z.mod_small by lia.
    destruct (Z.ltb_spec (Z.of_nat len) 128); [|lia].
    now rewrite Nat2Z.id.
  - set (k := BigInt.bytes (Z.of_nat len)) in *.
    assert (0 < k)%nat as Hpos by (apply bytes_pos; lia).
    cbn [app DER.decode_length]. rewrite Z_of_byte_of_Z.
    rewrite lor_128_small by lia.
    rewrite Z.mod_small by lia.
    destruct (Z.ltb_spec (128 + Z.of_nat k) 128); [lia|].
    rewrite land_127_high by lia. rewrite Nat2Z.id.
    destruct (Nat.eqb_spec k 0); [lia|].
    rewrite length_app, length_binary_encode.
    destruct (Nat.ltb_spec (k + length rest) k); [lia|].
    rewrite <- (length_binary_encode k (Z.of_nat len)) at 1 3.
    rewrite firstn_exact, skipn_exact.
    unfold k. rewrite decode_encode_minimal by lia.
    now rewrite Nat2Z.id.
Qed.

Lemma get_next_object_add_object (tag : byte) (contents rest : list byte) :
  DER.short_tag tag -> DER.length_encodable (length contents) ->
  DER.get_next_object (DER.add_object tag contents ++ rest)
  = OK (tag, contents, rest).
Proof.
  unfold DER.short_tag, DER.add_object. intros Ht Hl.
  cbn [app DER.get_next_object].
  destruct (Z.eqb_spec (Z.land (Z_of_byte tag) 31) 31); [contradiction|].
  rewrite <- app_assoc, decode_length_encode_length by assumption.
  cbn [rbind]. rewrite length_app.
  destruct (Nat.ltb_spec (length contents + length rest) (length contents));
    [lia|].
  now rewrite firstn_exact, skipn_exact.
Qed.

Lemma length_encode_length (len : nat) :
  DER.length_encodable len -> (length (DER.encode_length len) <= 128)%nat.
Proof.
  unfold DER.length_encodable, DER.encode_length. intro Hk.
  destruct (Z.of_nat len <=? 127); cbn [length].
  - lia.
  - rewrite length_binary_encode. lia.
Qed.

Lemma length_add_object (tag : byte) (contents : list byte) :
  DER.length_encodable (length contents) ->
  (length (DER.add_object tag contents) <= 129 + length contents)%nat.
Proof.
  intro H. unfold DER.add_object. cbn [length]. rewrite length_app.
  pose proof (length_encode_length _ H). lia.
Qed.

Lemma short_tag_SEQUENCE : DER.short_tag DER.SEQUENCE.
Proof. unfold DER.short_tag. vm_compute. discriminate. Qed.

Lemma short_tag_OCTET_STRING : DER.short_tag DER.OCTET_STRING.
Proof. unfold DER.short_tag. vm_compute. discriminate. Qed.

Lemma encode_integer_1 : DER.encode_integer 1 = [x02; x01; x01].
Proof. reflexivity. Qed.

Lemma decode_u32bit_version_1 (rest : list byte) :
  DER.decode_u32bit (DER.encode_integer 1 ++ rest) = OK (1, rest).
Proof. rewrite encode_integer_1. reflexivity. Qed.

Lemma decode_octet_string_encode (octets rest : list byte) :
  DER.length_encodable (length octets) ->
  DER.decode_octet_string (DER.encode_octet_string octets ++ rest)
  = OK (octets, rest).
Proof.
  intro H. unfold DER.decode_octet_string, DER.encode_octet_string.
  rewrite get_next_object_add_object
    by (assumption || apply short_tag_OCTET_STRING).
  reflexivity.
Qed.

Lemma start_cons_encode_sequence (members : list byte) :
  DER.length_encodable (length members) ->
  DER.start_cons (DER.encode_sequence members) = OK (members, []).
Proof.
  intro H. unfold DER.start_cons, DER.encode_sequence.
  rewrite <- (app_nil_r (DER.add_object DER.SEQUENCE members)).
  rewrite get_next_object_add_object
    by (assumption || apply short_tag_SEQUENCE).
  reflexivity.
Qed.

(** The three fields the private-key decoder reads from an encoded key. *)
Lemma pkcs8_fields_read_back (x : Z) :
  0 <= x -> Z.of_nat (BigInt.bytes x) < 2 ^ 32 ->
  let octets := BigInt.binary_encode x (BigInt.bytes x) in
  DER.start_cons
    (DER.encode_sequence
       (DER.encode_integer 1 ++ DER.encode_octet_string octets))
  = OK (DER.encode_integer 1 ++ DER.encode_octet_string octets, [])
  /\ DER.decode_octet_string (DER.encode_octet_string octets ++ [])
     = OK (octets, [])
  /\ BigInt.decode octets = x.
Proof.
  intros Hx Hsz octets.
  assert (length octets = BigInt.bytes x) as Hlen
      by apply length_binary_encode.
  assert (DER.length_encodable (length octets)) as Henc.
  { apply length_encodable_small. rewrite Hlen. lia. }
  split; [|split].
  - apply start_cons_encode_sequence. apply length_encodable_small.
    rewrite length_app, encode_integer_1.
    pose proof (length_add_object DER.OCTET_STRING octets Henc) as Hobj.
    unfold DER.encode_octet_string. cbn [length]. lia.
  - now apply decode_octet_string_encode.
  - now apply decode_encode_minimal.
Qed.

(** ** The EC key model *)

Section EC_Key_Facts.
Import ECC_Key.
Context {L : EC_Library}.

(** Each constructor leaves the public point in step with the scalar. *)
Lemma from_scalar_in_sync (dom : EC_Domain_Params) (x : Z)
  (k : EC_PrivateKey) :
  EC_PrivateKey_from_scalar dom x = OK k -> in_sync k.
Proof. intros [= <-]. reflexivity. Qed.

Lemma generate_in_sync (rng : RandomNumberGenerator)
  (dom : EC_Domain_Params) (k : EC_PrivateKey) :
  fst (EC_PrivateKey_generate rng dom) = OK k ->
  in_sync k /\ check_invariants (public_key (as_public k)) = true.
Proof.
  unfold EC_PrivateKey_generate.
  destruct (random_integer rng 1 (get_order dom)) as [x rng'].
  cbn [fst].
  destruct (check_invariants (point_mul (get_base_point dom) x)) eqn:E;
    [|discriminate].
  intros [= <-]. split; [reflexivity | exact E].
Qed.

(** Decoding the encoding of a non-negative scalar re-derives the same
    scalar and point, and then runs the self test on the point. *)
Lemma decode_of_encoded_scalar (alg_id : AlgorithmIdentifier)
  (dom : EC_Domain_Params) (x : Z) :
  EC_Domain_Params_decode (parameters alg_id) = OK dom ->
  0 <= x -> Z.of_nat (BigInt.bytes x) < 2 ^ 32 ->
  exists key_bits,
    pkcs8_private_key (stored_key dom x) = OK key_bits
    /\ EC_PrivateKey_decode alg_id key_bits
       = if check_invariants (point_mul (get_base_point dom) x)
         then OK (stored_key dom x)
         else Throw (Internal_Error
                "Loaded ECC private key failed self test").
Proof.
  intros Hdom Hx Hsz.
  destruct (pkcs8_fields_read_back x Hx Hsz) as (Hseq & Hoct & Hval).
  unfold pkcs8_private_key. cbn [stored_key private_key].
  rewrite encode_1363_minimal by lia. cbn [rbind].
  eexists. split; [reflexivity|].
  unfold EC_PrivateKey_decode.
  rewrite Hdom. cbn [rbind]. rewrite Hseq. cbn [rbind].
  rewrite decode_u32bit_version_1. cbn [rbind].
  rewrite <- (app_nil_r (DER.encode_octet_string _)), Hoct. cbn [rbind].
  cbn [DER.verify_end DER.end_cons rbind Z.eqb Pos.eqb negb].
  rewrite Hval. reflexivity.
Qed.

Lemma pkcs8_depends_on_scalar (k k' : EC_PrivateKey) :
  private_key k = private_key k' ->
  pkcs8_private_key k = pkcs8_private_key k'.
Proof. unfold pkcs8_private_key. now intros ->. Qed.

(** C2, as amended.  For an EC private key whose scalar is positive and
    short enough for a 32-bit length, whose public point is the scalar
    multiple of the base point and passes the invariant check: encoding the
    key with [pkcs8_private_key] succeeds, and decoding the result under an
    algorithm identifier that carries the key's domain parameters succeeds
    with a key of the same scalar, public point and domain. *)
Theorem pkcs8_private_key_round_trip
  (alg_id : AlgorithmIdentifier) (k : EC_PrivateKey) :
  EC_Domain_Params_decode (parameters alg_id)
    = OK (domain (as_public k)) ->
  0 < private_key k ->
  Z.of_nat (BigInt.bytes (private_key k)) < 2 ^ 32 ->
  in_sync k ->
  check_invariants (public_key (as_public k)) = true ->
  exists (key_bits : list byte) (k' : EC_PrivateKey),
    pkcs8_private_key k = OK key_bits
    /\ EC_PrivateKey_decode alg_id key_bits = OK k'
    /\ private_key k' = private_key k
    /\ public_key (as_public k') = public_key (as_public k)
    /\ domain (as_public k') = domain (as_public k).
Proof.
  intros Hdom Hpos Hsz Hsync Hchk.
  destruct (decode_of_encoded_scalar alg_id _ (private_key k) Hdom
              ltac:(lia) Hsz) as (key_bits & Henc & Hdec).
  red in Hsync. rewrite <- Hsync, Hchk in Hdec.
  exists key_bits, (stored_key (domain (as_public k)) (private_key k)).
  split; [|split; [exact Hdec|]].
  - rewrite <- Henc. now apply pkcs8_depends_on_scalar.
  - cbn. auto.
Qed.

(** C3.  Constructing an EC public key from an algorithm identifier and
    encoded key bytes checks the decoded point: a key is only ever returned
    with a point that passes [check_invariants], and whenever the domain
    parameters and the point decode, the constructor returns the key if the
    point passes the check and otherwise throws
    [Decoding_Error("Invalid public point; not on curve")]. *)
Theorem public_key_decode_validates
  (alg_id : AlgorithmIdentifier) (key_bits : list byte) :
  (forall k,
      EC_PublicKey_decode alg_id key_bits = OK k ->
      check_invariants (public_key k) = true)
  /\ (forall dom pt,
        EC_Domain_Params_decode (parameters alg_id) = OK dom ->
        OS2ECP key_bits (get_curve dom) = OK pt ->
        (check_invariants pt = false ->
         EC_PublicKey_decode alg_id key_bits
         = Throw (Decoding_Error "Invalid public point; not on curve"))
        /\ (check_invariants pt = true ->
            EC_PublicKey_decode alg_id key_bits
            = OK {| domain_params := dom;
                    public_key := pt;
                    domain_encoding := EC_DOMPAR_ENC_EXPLICIT |})).
Proof.
  unfold EC_PublicKey_decode. split.
  - intro k.
    destruct (EC_Domain_Params_decode (parameters alg_id)) as [dom|e];
      cbn [rbind]; [|discriminate].
    destruct (OS2ECP key_bits (get_curve dom)) as [pt|e];
      cbn [rbind]; [|discriminate].
    unfold public_point. cbn [public_key].
    destruct (check_invariants pt) eqn:E; [|discriminate].
    intros [= <-]. exact E.
  - intros dom pt Hdom Hpt. rewrite Hdom. cbn [rbind].
    rewrite Hpt. cbn [rbind]. unfold public_point. cbn [public_key].
    split; intros ->; reflexivity.
Qed.

(** C10.  The constructor from domain parameters and an explicit scalar
    never fails and never consults [check_invariants]: for every scalar it
    returns the key holding that scalar and the scalar multiple of the base
    point.  This includes 0, scalars at or above the group order, and
    scalars whose point fails the invariant check, for which the generating
    constructor throws [Internal_Error] and the decoding constructor throws
    [Internal_Error] on the key's own encoding. *)
Theorem explicit_scalar_constructor_unchecked
  (dom : EC_Domain_Params) (x : Z) :
  EC_PrivateKey_from_scalar dom x = OK (stored_key dom x)
  /\ private_key (stored_key dom x) = x
  /\ public_key (as_public (stored_key dom x))
     = point_mul (get_base_point dom) x
  /\ (check_invariants (point_mul (get_base_point dom) x) = false ->
      (forall rng rng',
          random_integer rng 1 (get_order dom) = (x, rng') ->
          EC_PrivateKey_generate rng dom
          = (Throw (Internal_Error "ECC private key generation failed"),
             rng'))
      /\ (forall alg_id,
            EC_Domain_Params_decode (parameters alg_id) = OK dom ->
            0 <= x -> Z.of_nat (BigInt.bytes x) < 2 ^ 32 ->
            exists key_bits,
              pkcs8_private_key (stored_key dom x) = OK key_bits
              /\ EC_PrivateKey_decode alg_id key_bits
                 = Throw (Internal_Error
                            "Loaded ECC private key failed self test"))).
Proof.
  split; [reflexivity|]. split; [reflexivity|]. split; [reflexivity|].
  intro Hbad. split.
  - intros rng rng' Hr. unfold EC_PrivateKey_generate.
    rewrite Hr, Hbad. reflexivity.
  - intros alg_id Hdom Hx Hsz.
    destruct (decode_of_encoded_scalar alg_id dom x Hdom Hx Hsz)
      as (key_bits & Henc & Hdec).
    rewrite Hbad in Hdec. eauto.
Qed.

End EC_Key_Facts.

(** *** The EC key model on concrete keys *)

(** The round trip does not extend to every populated scalar.  On the toy
    curve, the key built from the scalar [-5] has a populated scalar, its
    encoding is [30 06 02 01 01 04 01 05], and decoding that under the same
    domain parameters gives the scalar [5] and the opposite public point. *)
Lemma pkcs8_round_trip_loses_sign :
  let k := @ECC_Key.stored_key Toy_EC.library Toy_EC.dom17 (-5) in
  @ECC_Key.EC_PrivateKey_from_scalar Toy_EC.library Toy_EC.dom17 (-5) = OK k
  /\ @ECC_Key.private_value Toy_EC.library k = OK (-5)
  /\ @ECC_Key.EC_Domain_Params_decode Toy_EC.library
       (ECC_Key.parameters Toy_EC.alg17)
     = OK (@ECC_Key.domain Toy_EC.library (ECC_Key.as_public k))
  /\ exists key_bits k',
      @ECC_Key.pkcs8_private_key Toy_EC.library k = OK key_bits
      /\ key_bits = [x30; x06; x02; x01; x01; x04; x01; x05]
      /\ @ECC_Key.EC_PrivateKey_decode Toy_EC.library Toy_EC.alg17 key_bits
         = OK k'
      /\ ECC_Key.private_key k' = 5
      /\ ECC_Key.private_key k' <> ECC_Key.private_key k
      /\ ECC_Key.public_key (ECC_Key.as_public k')
         <> ECC_Key.public_key (ECC_Key.as_public k).
Proof.
  cbv zeta. split; [reflexivity|]. split; [reflexivity|].
  split; [reflexivity|].
  exists [x30; x06; x02; x01; x01; x04; x01; x05].
  exists (@ECC_Key.stored_key Toy_EC.library Toy_EC.dom17 5).
  split; [reflexivity|]. split; [reflexivity|].
  split; [reflexivity|]. split; [reflexivity|].
  split; [cbn; lia | cbv; discriminate].
Qed.

Lemma pkcs8_private_key_round_trip_witness :
  let k := @ECC_Key.stored_key Toy_EC.library Toy_EC.dom17 5 in
  exists key_bits k',
    @ECC_Key.pkcs8_private_key Toy_EC.library k = OK key_bits
    /\ @ECC_Key.EC_PrivateKey_decode Toy_EC.library Toy_EC.alg17 key_bits
       = OK k'
    /\ ECC_Key.private_key k' = ECC_Key.private_key k
    /\ ECC_Key.public_key (ECC_Key.as_public k')
       = ECC_Key.public_key (ECC_Key.as_public k)
    /\ @ECC_Key.domain Toy_EC.library (ECC_Key.as_public k')
       = @ECC_Key.domain Toy_EC.library (ECC_Key.as_public k).
Proof.
  cbv zeta.
  apply (@pkcs8_private_key_round_trip Toy_EC.library Toy_EC.alg17
           (@ECC_Key.stored_key Toy_EC.library Toy_EC.dom17 5)).
  - reflexivity.
  - cbn. lia.
  - vm_compute. reflexivity.
  - reflexivity.
  - reflexivity.
Defined.

Lemma public_key_decode_validates_witness :
  @ECC_Key.EC_PublicKey_decode Toy_EC.library Toy_EC.alg17 [x04; x05; x02]
  = Throw (Decoding_Error "Invalid public point; not on curve")
  /\ @ECC_Key.EC_PublicKey_decode Toy_EC.library Toy_EC.alg17
       [x04; x05; x01]
     = OK (@ECC_Key.Build_EC_PublicKey Toy_EC.library Toy_EC.dom17
             Toy_EC.G17 ECC_Key.EC_DOMPAR_ENC_EXPLICIT).
Proof.
  split.
  - apply (proj2 (@public_key_decode_validates Toy_EC.library Toy_EC.alg17
                    [x04; x05; x02])
             Toy_EC.dom17 Toy_EC.H17);
      reflexivity.
  - apply (proj2 (@public_key_decode_validates Toy_EC.library Toy_EC.alg17
                    [x04; x05; x01])
             Toy_EC.dom17 Toy_EC.G17);
      reflexivity.
Defined.

Lemma explicit_scalar_constructor_unchecked_witness :
  @ECC_Key.EC_PrivateKey_generate Toy_EC.library 0 Toy_EC.dom17_off
  = (Throw (Internal_Error "ECC private key generation failed"), 1)
  /\ @ECC_Key.EC_PrivateKey_from_scalar Toy_EC.library Toy_EC.dom17_off 1
     = OK (@ECC_Key.stored_key Toy_EC.library Toy_EC.dom17_off 1)
  /\ @ECC_Key.EC_PrivateKey_from_scalar Toy_EC.library Toy_EC.dom17 0
     = OK (@ECC_Key.stored_key Toy_EC.library Toy_EC.dom17 0)
  /\ @ECC_Key.EC_PrivateKey_from_scalar Toy_EC.library Toy_EC.dom17 19
     = OK (@ECC_Key.stored_key Toy_EC.library Toy_EC.dom17 19).
Proof.
  split; [|split; [|split]].
  - apply (proj2 (proj2 (proj2
             (@explicit_scalar_constructor_unchecked Toy_EC.library
                Toy_EC.dom17_off 1)))); reflexivity.
  - apply (@explicit_scalar_constructor_unchecked Toy_EC.library
             Toy_EC.dom17_off 1).
  - apply (@explicit_scalar_constructor_unchecked Toy_EC.library
             Toy_EC.dom17 0).
  - apply (@explicit_scalar_constructor_unchecked Toy_EC.library
             Toy_EC.dom17 19).
Defined.

(** ** The TLS callbacks *)

Section Callback_Facts.
Import TLS_Callbacks.
Context {L : TLS_Library} {PK : PK_Library}.

Lemma bind_lift_OK {A B : Type} (r : result A) (a : A) (k : A -> M B) :
  r = OK a -> bind (lift r) k = k a.
Proof. intros ->. unfold bind, lift. destruct (k a). reflexivity. Qed.

Lemma trace_bind_lift {A B : Type} (r : result A) (k : A -> M B)
  (ev : Event) :
  In ev (trace (bind (lift r) k)) ->
  exists a, r = OK a /\ In ev (trace (k a)).
Proof.
  destruct r as [a|e]; unfold bind, lift, trace.
  - destruct (k a) as [log o] eqn:E. cbn. intro H. exists a.
    rewrite E. cbn. auto.
  - cbn. intros [].
Qed.

Lemma check_then_agree_eq (policy : Policy) (rng : RandomNumberGenerator)
  (sk : PK_Key_Agreement_Key) (pk : Public_Key) :
  bind (policy_check_peer_key_acceptable policy pk)
       (fun _ => agree rng sk pk)
  = check_then_agree policy rng sk pk.
Proof.
  unfold bind, policy_check_peer_key_acceptable, call, agree,
    check_then_agree.
  destruct (check_peer_key_acceptable policy pk); reflexivity.
Qed.

Lemma trace_check_then_agree_head (policy : Policy)
  (rng : RandomNumberGenerator) (sk : PK_Key_Agreement_Key)
  (pk : Public_Key) :
  exists rest,
    trace (check_then_agree policy rng sk pk)
    = Ev_check_peer_key_acceptable pk :: rest.
Proof.
  unfold check_then_agree, trace.
  destruct (check_peer_key_acceptable policy pk); cbn; eauto.
Qed.

Lemma trace_check_then_agree (policy : Policy) (rng : RandomNumberGenerator)
  (sk : PK_Key_Agreement_Key) (pk pk' : Public_Key) :
  In (Ev_check_peer_key_acceptable pk')
     (trace (check_then_agree policy rng sk pk)) -> pk' = pk.
Proof.
  unfold check_then_agree, trace.
  destruct (check_peer_key_acceptable policy pk); cbn;
    intros [H|[H|[]]] || intros [H|[]]; congruence.
Qed.

(** The finite-field branch of [tls_ephemeral_key_agreement]. *)
Lemma agreement_dh (group : Group) (sk : PK_Key_Agreement_Key)
  (pv : list byte) (rng : RandomNumberGenerator) (policy : Policy)
  (dl : DL_Group) :
  is_dh_group group = true -> get_dl_group group = OK dl ->
  tls_ephemeral_key_agreement group sk pv rng policy
  = if (BigInt.decode pv <=? 1) || (BigInt.decode pv >=? get_p dl - 1)
    then ([], Throw (TLS_Exception IllegalParameter
                       "Server sent bad DH key for DHE exchange"))
    else check_then_agree policy rng sk
           (DH_PublicKey dl (BigInt.decode pv)).
Proof.
  intros Hdh Hdl. unfold tls_ephemeral_key_agreement. rewrite Hdh.
  rewrite (bind_lift_OK _ dl) by assumption.
  destruct (_ || _); [reflexivity|]. apply check_then_agree_eq.
Qed.

(** The branches for a named group that is not a finite-field group. *)
Lemma agreement_named (gp : Group_Params) (sk : PK_Key_Agreement_Key)
  (pv : list byte) (rng : RandomNumberGenerator) (policy : Policy) :
  is_dh gp = false ->
  tls_ephemeral_key_agreement (Named gp) sk pv rng policy
  = if is_ecdh gp
    then
      bind (lift (EC_Group_from_name (group_param_to_string gp)))
        (fun ec_group =>
           bind (lift (EC_Group_OS2ECP ec_group pv))
             (fun pt =>
                check_then_agree policy rng sk (ECDH_PublicKey ec_group pt)))
    else if BOTAN_HAS_CURVE_25519 && is_x25519 gp
    then
      if negb (Nat.eqb (length pv) 32)
      then throw (TLS_Exception HandshakeFailure "Invalid X25519 key size")
      else check_then_agree policy rng sk (Curve25519_PublicKey pv)
    else throw (TLS_Exception IllegalParameter
                  "Did not recognize the key exchange group").
Proof.
  intro Hdh. unfold tls_ephemeral_key_agreement. cbn [is_dh_group].
  rewrite Hdh.
  cbn [holds_alternative_Group_Params BOTAN_ASSERT_NOMSG get_Group_Params].
  rewrite !(bind_lift_OK _ _ _ eq_refl).
  destruct (is_ecdh gp).
  - reflexivity.
  - destruct (BOTAN_HAS_CURVE_25519 && is_x25519 gp); [|reflexivity].
    destruct (negb _); [reflexivity|]. apply check_then_agree_eq.
Qed.

Lemma generate_dh (group : Group) (rng : RandomNumberGenerator) :
  is_dh_group group = true ->
  tls_generate_ephemeral_key group rng
  = rbind (get_dl_group group) (fun dl => OK (DH_PrivateKey rng dl)).
Proof.
  intro Hdh. unfold tls_generate_ephemeral_key. now rewrite Hdh.
Qed.

Lemma generate_named (gp : Group_Params) (rng : RandomNumberGenerator) :
  is_dh gp = false ->
  tls_generate_ephemeral_key (Named gp) rng
  = if is_ecdh gp
    then rbind (EC_Group_from_name (group_param_to_string gp))
           (fun ec_group => OK (ECDH_PrivateKey rng ec_group))
    else if BOTAN_HAS_CURVE_25519 && is_x25519 gp
    then OK (X25519_PrivateKey rng)
    else Throw (TLS_Exception DecodeError
           "cannot create a key offering without a group definition").
Proof.
  intro Hdh. unfold tls_generate_ephemeral_key. cbn [is_dh_group].
  rewrite Hdh. reflexivity.
Qed.

Lemma is_dh_group_spec (group : Group) :
  is_dh_group group = true
  <-> ((exists dl, group = Explicit dl)
       \/ (exists gp, group = Named gp /\ is_dh gp = true)).
Proof.
  destruct group as [gp|dl]; cbn [is_dh_group]; split.
  - intro H. right. eauto.
  - intros [[dl H]|[gp' [H H']]]; [discriminate|]. congruence.
  - intros _. left. eauto.
  - reflexivity.
Qed.

Lemma generate_family (group : Group) (rng : RandomNumberGenerator)
  (k : PK_Key_Agreement_Key) :
  tls_generate_ephemeral_key group rng = OK k ->
  private_family k = selected_family group.
Proof.
  unfold selected_family. destruct (is_dh_group group) eqn:Hdh.
  - rewrite generate_dh by assumption.
    destruct (get_dl_group group); cbn; [|discriminate].
    intros [= <-]. reflexivity.
  - destruct group as [gp|dl]; [|discriminate].
    cbn [is_dh_group] in Hdh. rewrite generate_named by assumption.
    destruct (is_ecdh gp).
    + destruct (EC_Group_from_name _); cbn; [|discriminate].
      intros [= <-]. reflexivity.
    + destruct (BOTAN_HAS_CURVE_25519 && is_x25519 gp); [|discriminate].
      intros [= <-]. reflexivity.
Qed.

Lemma agreement_family (group : Group) (sk : PK_Key_Agreement_Key)
  (pv : list byte) (rng : RandomNumberGenerator) (policy : Policy)
  (pk : Public_Key) :
  In (Ev_check_peer_key_acceptable pk)
     (trace (tls_ephemeral_key_agreement group sk pv rng policy)) ->
  public_family pk = selected_family group.
Proof.
  unfold selected_family. destruct (is_dh_group group) eqn:Hdh.
  - unfold tls_ephemeral_key_agreement. rewrite Hdh.
    intro H. apply trace_bind_lift in H. destruct H as (dl & _ & H).
    destruct (_ || _) in H; [destruct H|].
    rewrite check_then_agree_eq in H.
    apply trace_check_then_agree in H. now subst pk.
  - destruct group as [gp|dl]; [|discriminate].
    cbn [is_dh_group] in Hdh. rewrite agreement_named by assumption.
    destruct (is_ecdh gp).
    + intro H. apply trace_bind_lift in H. destruct H as (ec & _ & H).
      apply trace_bind_lift in H. destruct H as (pt & _ & H).
      apply trace_check_then_agree in H. now subst pk.
    + destruct (BOTAN_HAS_CURVE_25519 && is_x25519 gp); [|intros []].
      destruct (negb _); [intros []|].
      intro H. apply trace_check_then_agree in H. now subst pk.
Qed.

Lemma selected_family_finite_field (group : Group) :
  selected_family group = Finite_Field <-> is_dh_group group = true.
Proof.
  unfold selected_family. destruct (is_dh_group group) eqn:Hdh; [tauto|].
  destruct group as [gp|dl]; [|discriminate].
  destruct (is_ecdh gp); split; discriminate.
Qed.

(** C1.  On the finite-field path, with [Y] the integer decoded from the
    peer's bytes and [p] the group modulus, the agreement ends in
    [TLS_Exception(Alert::IllegalParameter)] with an empty call log, that
    is before the policy or the agreement primitive is called, exactly when
    [Y <= 1] or [Y >= p - 1]; in particular for [Y] equal to 0, 1, [p - 1]
    and [p].  Otherwise the first call made is the policy check of the
    finite-field public key built from [Y]. *)
Theorem dh_peer_value_range_check (group : Group)
  (sk : PK_Key_Agreement_Key) (pv : list byte)
  (rng : RandomNumberGenerator) (policy : Policy) (dl : DL_Group) :
  is_dh_group group = true ->
  get_dl_group group = OK dl ->
  let Y := BigInt.decode pv in
  let run := tls_ephemeral_key_agreement group sk pv rng policy in
  let rejected :=
    run = ([], Throw (TLS_Exception IllegalParameter
                        "Server sent bad DH key for DHE exchange")) in
  ((Y <= 1 \/ Y >= get_p dl - 1) <-> rejected)
  /\ (Y = 0 \/ Y = 1 \/ Y = get_p dl - 1 \/ Y = get_p dl -> rejected)
  /\ (~ (Y <= 1 \/ Y >= get_p dl - 1) ->
      exists rest,
        trace run = Ev_check_peer_key_acceptable (DH_PublicKey dl Y) :: rest).
Proof.
  intros Hdh Hdl Y run rejected. subst run rejected.
  rewrite (agreement_dh group sk pv rng policy dl Hdh Hdl). fold Y.
  destruct (trace_check_then_agree_head policy rng sk (DH_PublicKey dl Y))
    as [rest Hrest].
  destruct (Z.leb_spec Y 1) as [Hle|Hgt];
    destruct (Z.geb_spec Y (get_p dl - 1)) as [Hge|Hlt]; cbn [orb].
  1-3: split; [split; [reflexivity | intros _; lia]
              | split; [reflexivity | intros Hn; exfalso; apply Hn; lia]].
  split; [split|split].
  - lia.
  - intro Heq. apply (f_equal trace) in Heq.
    rewrite Hrest in Heq. discriminate.
  - lia.
  - intros _. eauto.
Qed.

(** C4.  On the X25519 path (the build has Curve25519, the group is a named
    group that is neither finite-field nor ECDH and is X25519), a peer
    value whose length is not 32 ends the agreement in
    [TLS_Exception(Alert::HandshakeFailure)] with no call made; a peer
    value of length 32 is wrapped as a Curve25519 public key and handed to
    the policy check and then to the agreement primitive, with nothing in
    between. *)
Theorem x25519_peer_value_length_check (group_params : Group_Params)
  (sk : PK_Key_Agreement_Key) (pv : list byte)
  (rng : RandomNumberGenerator) (policy : Policy) :
  BOTAN_HAS_CURVE_25519 = true ->
  is_dh group_params = false ->
  is_ecdh group_params = false ->
  is_x25519 group_params = true ->
  let run :=
    tls_ephemeral_key_agreement (Named group_params) sk pv rng policy in
  (length pv <> 32%nat ->
   run = ([], Throw (TLS_Exception HandshakeFailure
                       "Invalid X25519 key size")))
  /\ (length pv = 32%nat ->
      run = check_then_agree policy rng sk (Curve25519_PublicKey pv)).
Proof.
  intros Hflag Hdh Hec Hx run. subst run.
  rewrite agreement_named by assumption. rewrite Hec, Hflag, Hx.
  cbn [andb]. split; intro Hlen.
  - apply Nat.eqb_neq in Hlen. rewrite Hlen. reflexivity.
  - rewrite Hlen. reflexivity.
Qed.

(** C5.  Key generation and shared-secret derivation classify a group
    specification alike, on every path.  [is_dh_group] holds exactly when
    the specification carries a [DL_Group] or its identifier satisfies
    [is_dh].  A generated key is a finite-field key exactly when
    [is_dh_group] holds, and so is a peer key that the derivation hands to
    the policy; a generated key and such a peer key for the same
    specification are always of the same family.  Both operations are then
    determined branch by branch, by the same tests in the same order:
    - [is_dh_group] holds: both resolve the group with [get_dl_group]; if
      that throws, both throw the same exception; if it gives a group,
      generation returns the finite-field key over it and derivation is
      the finite-field range check followed by policy check and agreement
      with the finite-field peer key over it;
    - otherwise, the identifier satisfies [is_ecdh]: both look the curve
      up by name; if that throws, both throw the same exception; if it
      gives a curve, generation returns the elliptic-curve key over it and
      derivation decodes the peer's point on it and goes on to policy
      check and agreement with the elliptic-curve peer key;
    - otherwise, in a build with Curve25519, the identifier satisfies
      [is_x25519]: generation returns the X25519 key and derivation is the
      length check followed by policy check and agreement with the
      Curve25519 peer key;
    - otherwise both refuse the group. *)
Theorem generate_and_derive_classify_alike (group : Group) :
  (is_dh_group group = true
   <-> ((exists dl, group = Explicit dl)
        \/ (exists gp, group = Named gp /\ is_dh gp = true)))
  /\ (forall rng k,
        tls_generate_ephemeral_key group rng = OK k ->
        (private_family k = Finite_Field <-> is_dh_group group = true))
  /\ (forall sk pv rng policy pk,
        In (Ev_check_peer_key_acceptable pk)
           (trace (tls_ephemeral_key_agreement group sk pv rng policy)) ->
        (public_family pk = Finite_Field <-> is_dh_group group = true))
  /\ (forall rng k sk pv rng' policy pk,
        tls_generate_ephemeral_key group rng = OK k ->
        In (Ev_check_peer_key_acceptable pk)
           (trace (tls_ephemeral_key_agreement group sk pv rng' policy)) ->
        private_family k = public_family pk)
  /\ (forall dl,
        is_dh_group group = true -> get_dl_group group = OK dl ->
        (forall rng,
            tls_generate_ephemeral_key group rng = OK (DH_PrivateKey rng dl))
        /\ (forall sk pv rng policy,
              tls_ephemeral_key_agreement group sk pv rng policy
              = if (BigInt.decode pv <=? 1)
                   || (BigInt.decode pv >=? get_p dl - 1)
                then ([], Throw (TLS_Exception IllegalParameter
                                   "Server sent bad DH key for DHE exchange"))
                else check_then_agree policy rng sk
                       (DH_PublicKey dl (BigInt.decode pv))))
  /\ (forall e,
        is_dh_group group = true -> get_dl_group group = Throw e ->
        (forall rng, tls_generate_ephemeral_key group rng = Throw e)
        /\ (forall sk pv rng policy,
              tls_ephemeral_key_agreement group sk pv rng policy
              = ([], Throw e)))
  /\ (forall gp,
        group = Named gp -> is_dh gp = false -> is_ecdh gp = true ->
        (forall ec,
            EC_Group_from_name (group_param_to_string gp) = OK ec ->
            (forall rng,
                tls_generate_ephemeral_key group rng
                = OK (ECDH_PrivateKey rng ec))
            /\ (forall sk pv rng policy,
                  tls_ephemeral_key_agreement group sk pv rng policy
                  = match EC_Group_OS2ECP ec pv with
                    | OK pt =>
                        check_then_agree policy rng sk (ECDH_PublicKey ec pt)
                    | Throw e => ([], Throw e)
                    end))
        /\ (forall e,
              EC_Group_from_name (group_param_to_string gp) = Throw e ->
              (forall rng, tls_generate_ephemeral_key group rng = Throw e)
              /\ (forall sk pv rng policy,
                    tls_ephemeral_key_agreement group sk pv rng policy
                    = ([], Throw e))))
  /\ (forall gp,
        group = Named gp -> is_dh gp = false -> is_ecdh gp = false ->
        BOTAN_HAS_CURVE_25519 && is_x25519 gp = true ->
        (forall rng,
            tls_generate_ephemeral_key group rng = OK (X25519_PrivateKey rng))
        /\ (forall sk pv rng policy,
              tls_ephemeral_key_agreement group sk pv rng policy
              = if Nat.eqb (length pv) 32
                then check_then_agree policy rng sk (Curve25519_PublicKey pv)
                else ([], Throw (TLS_Exception HandshakeFailure
                                   "Invalid X25519 key size"))))
  /\ (forall gp,
        group = Named gp -> is_dh gp = false -> is_ecdh gp = false ->
        BOTAN_HAS_CURVE_25519 && is_x25519 gp = false ->
        (forall rng,
            tls_generate_ephemeral_key group rng
            = Throw (TLS_Exception DecodeError
                       "cannot create a key offering without a group definition"))
        /\ (forall sk pv rng policy,
              tls_ephemeral_key_agreement group sk pv rng policy
              = ([], Throw (TLS_Exception IllegalParameter
                              "Did not recognize the key exchange group")))).
Proof.
  split; [apply is_dh_group_spec|].
  split; [|split; [|split; [|split; [|split; [|split; [|split]]]]]].
  - intros rng k Hk. rewrite (generate_family _ _ _ Hk).
    apply selected_family_finite_field.
  - intros sk pv rng policy pk Hpk.
    rewrite (agreement_family _ _ _ _ _ _ Hpk).
    apply selected_family_finite_field.
  - intros rng k sk pv rng' policy pk Hk Hpk.
    rewrite (generate_family _ _ _ Hk), (agreement_family _ _ _ _ _ _ Hpk).
    reflexivity.
  - intros dl Hdh Hdl. split.
    + intro rng. rewrite generate_dh by assumption. now rewrite Hdl.
    + intros sk pv rng policy. now apply agreement_dh.
  - intros e Hdh Hdl. split.
    + intro rng. rewrite generate_dh by assumption. now rewrite Hdl.
    + intros sk pv rng policy. unfold tls_ephemeral_key_agreement.
      rewrite Hdh, Hdl. reflexivity.
  - intros gp -> Hdh Hec. split.
    + intros ec Hlookup. split.
      * intro rng. rewrite generate_named by assumption.
        now rewrite Hec, Hlookup.
      * intros sk pv rng policy. rewrite agreement_named by assumption.
        rewrite Hec, Hlookup. rewrite (bind_lift_OK _ ec) by reflexivity.
        destruct (EC_Group_OS2ECP ec pv) as [pt|e];
          [now rewrite (bind_lift_OK _ pt) | reflexivity].
    + intros e Hlookup. split.
      * intro rng. rewrite generate_named by assumption.
        now rewrite Hec, Hlookup.
      * intros sk pv rng policy. rewrite agreement_named by assumption.
        now rewrite Hec, Hlookup.
  - intros gp -> Hdh Hec Hx. split.
    + intro rng. rewrite generate_named by assumption. now rewrite Hec, Hx.
    + intros sk pv rng policy. rewrite agreement_named by assumption.
      rewrite Hec, Hx. now destruct (Nat.eqb (length pv) 32).
  - intros gp -> Hdh Hec Hx. split.
    + intro rng. rewrite generate_named by assumption. now rewrite Hec, Hx.
    + intros sk pv rng policy. rewrite agreement_named by assumption.
      now rewrite Hec, Hx.
Qed.

(** C6.  With an empty certificate chain, [tls_verify_cert_chain] throws
    [Invalid_Argument("Certificate chain was empty")] and its call log is
    empty: the policy was not asked for the restrictions, the clock and the
    OCSP timeout were not read, and path validation, the only user of the
    trust anchors, was not called. *)
Theorem empty_chain_rejected_first (this : Callbacks)
  (ocsp_responses : list (option OCSP_Response))
  (trusted_roots : list Certificate_Store) (usage : Usage_Type)
  (hostname : string) (policy : Policy) :
  tls_verify_cert_chain this [] ocsp_responses trusted_roots usage hostname
    policy
  = ([], Throw (Invalid_Argument "Certificate chain was empty")).
Proof. reflexivity. Qed.



(** C9.  For a session whose lifetime hint is not negative,
    [tls_should_persist_resumption_information] answers [false] (discard)
    exactly when the version is not older than TLS 1.3 and the hint is
    zero.  With an older version and a zero hint it answers [true]
    (retain), and with a positive hint it answers [true] for every
    version. *)
Theorem session_retention_decision (session : Session) :
  (0 <= lifetime_hint session ->
   (tls_should_persist_resumption_information session = false
    <-> (is_pre_tls_13 (version session) = false
         /\ lifetime_hint session = 0)))
  /\ (is_pre_tls_13 (version session) = true ->
      lifetime_hint session = 0 ->
      tls_should_persist_resumption_information session = true)
  /\ (0 < lifetime_hint session ->
      tls_should_persist_resumption_information session = true).
Proof.
  unfold tls_should_persist_resumption_information.
  destruct (Z.ltb_spec 0 (lifetime_hint session));
    destruct (is_pre_tls_13 (version session)); cbn [orb];
    intuition (try discriminate; try lia).
Qed.

End Callback_Facts.

(** *** The TLS callbacks on concrete inputs *)

Lemma dh_peer_value_range_check_witness :
  let run pv :=
    @TLS_Callbacks.tls_ephemeral_key_agreement Toy_TLS.library
      Toy_TLS.pk_library
      (@TLS_Callbacks.Named Toy_TLS.library Toy_TLS.FFDHE_2048)
      (@TLS_Callbacks.DH_PrivateKey Toy_TLS.library 1 Toy_TLS.modp23)
      pv 0 Toy_TLS.permissive in
  let rejected pv :=
    run pv = ([], Throw (TLS_Exception IllegalParameter
                           "Server sent bad DH key for DHE exchange")) in
  rejected [x00] /\ rejected [x01] /\ rejected [x16] /\ rejected [x17]
  /\ exists rest,
      TLS_Callbacks.trace (run [x02])
      = TLS_Callbacks.Ev_check_peer_key_acceptable
          (@TLS_Callbacks.DH_PublicKey Toy_TLS.library Toy_TLS.modp23 2)
        :: rest.
Proof.
  cbv zeta.
  pose proof (fun pv =>
    @dh_peer_value_range_check Toy_TLS.library Toy_TLS.pk_library
      (@TLS_Callbacks.Named Toy_TLS.library Toy_TLS.FFDHE_2048)
      (@TLS_Callbacks.DH_PrivateKey Toy_TLS.library 1 Toy_TLS.modp23)
      pv 0 Toy_TLS.permissive Toy_TLS.modp23 eq_refl eq_refl) as T.
  cbv zeta in T.
  split; [|split; [|split; [|split]]].
  - apply (proj1 (proj2 (T [x00]))). left. reflexivity.
  - apply (proj1 (proj2 (T [x01]))). right. left. reflexivity.
  - apply (proj1 (proj2 (T [x16]))). right. right. left. reflexivity.
  - apply (proj1 (proj2 (T [x17]))). right. right. right. reflexivity.
  - apply (proj2 (proj2 (T [x02]))). vm_compute.
    intros [H|H]; apply H; reflexivity.
Defined.

Lemma x25519_peer_value_length_check_witness :
  let run pv :=
    @TLS_Callbacks.tls_ephemeral_key_agreement Toy_TLS.library
      Toy_TLS.pk_library
      (@TLS_Callbacks.Named Toy_TLS.library Toy_TLS.X25519)
      (@TLS_Callbacks.X25519_PrivateKey Toy_TLS.library 1)
      pv 0 Toy_TLS.permissive in
  run (repeat x00 31)
  = ([], Throw (TLS_Exception HandshakeFailure "Invalid X25519 key size"))
  /\ run (repeat x00 32)
     = @TLS_Callbacks.check_then_agree Toy_TLS.library Toy_TLS.pk_library
         Toy_TLS.permissive 0
         (@TLS_Callbacks.X25519_PrivateKey Toy_TLS.library 1)
         (@TLS_Callbacks.Curve25519_PublicKey Toy_TLS.library
            (repeat x00 32)).
Proof.
  cbv zeta.
  pose proof (fun pv =>
    @x25519_peer_value_length_check Toy_TLS.library Toy_TLS.pk_library
      Toy_TLS.X25519
      (@TLS_Callbacks.X25519_PrivateKey Toy_TLS.library 1)
      pv 0 Toy_TLS.permissive eq_refl eq_refl eq_refl eq_refl) as T.
  cbv zeta in T.
  split.
  - apply (proj1 (T (repeat x00 31))). cbn. lia.
  - apply (proj2 (T (repeat x00 32))). reflexivity.
Defined.

Lemma generate_and_derive_classify_alike_witness :
  let generate g :=
    @TLS_Callbacks.tls_generate_ephemeral_key Toy_TLS.library
      (@TLS_Callbacks.Named Toy_TLS.library g) 7 in
  let derive g sk pv :=
    @TLS_Callbacks.tls_ephemeral_key_agreement Toy_TLS.library
      Toy_TLS.pk_library (@TLS_Callbacks.Named Toy_TLS.library g) sk pv 0
      Toy_TLS.permissive in
  let check_then_agree sk pk :=
    @TLS_Callbacks.check_then_agree Toy_TLS.library Toy_TLS.pk_library
      Toy_TLS.permissive 0 sk pk in
  let dh_key := @TLS_Callbacks.DH_PrivateKey Toy_TLS.library 7 Toy_TLS.modp23 in
  let ec_key := @TLS_Callbacks.ECDH_PrivateKey Toy_TLS.library 7 Toy_EC.dom17 in
  let x_key := @TLS_Callbacks.X25519_PrivateKey Toy_TLS.library 7 in
  (generate Toy_TLS.FFDHE_2048 = OK dh_key
   /\ derive Toy_TLS.FFDHE_2048 dh_key [x02]
      = check_then_agree dh_key
          (@TLS_Callbacks.DH_PublicKey Toy_TLS.library Toy_TLS.modp23 2))
  /\ (generate Toy_TLS.SECP256R1 = OK ec_key
      /\ derive Toy_TLS.SECP256R1 ec_key [x04; x05; x01]
         = check_then_agree ec_key
             (@TLS_Callbacks.ECDH_PublicKey Toy_TLS.library Toy_EC.dom17
                Toy_EC.G17))
  /\ (generate Toy_TLS.X25519 = OK x_key
      /\ derive Toy_TLS.X25519 x_key (repeat x00 32)
         = check_then_agree x_key
             (@TLS_Callbacks.Curve25519_PublicKey Toy_TLS.library
                (repeat x00 32)))
  /\ (generate 99
      = Throw (TLS_Exception DecodeError
                 "cannot create a key offering without a group definition")
      /\ derive 99 x_key (repeat x00 32)
         = ([], Throw (TLS_Exception IllegalParameter
                         "Did not recognize the key exchange group"))).
Proof.
  cbv zeta.
  pose proof (fun g =>
    @generate_and_derive_classify_alike Toy_TLS.library Toy_TLS.pk_library
      (@TLS_Callbacks.Named Toy_TLS.library g)) as T.
  split; [|split; [|split]].
  - destruct (T Toy_TLS.FFDHE_2048) as (_ & _ & _ & _ & Hdh & _).
    destruct (Hdh Toy_TLS.modp23 eq_refl eq_refl) as (Hgen & Hagree).
    split; [apply Hgen | apply Hagree].
  - destruct (T Toy_TLS.SECP256R1) as (_ & _ & _ & _ & _ & _ & Hec & _).
    destruct (proj1 (Hec Toy_TLS.SECP256R1 eq_refl eq_refl eq_refl)
                Toy_EC.dom17 eq_refl) as (Hgen & Hagree).
    split; [apply Hgen | apply Hagree].
  - destruct (T Toy_TLS.X25519) as (_ & _ & _ & _ & _ & _ & _ & Hx & _).
    destruct (Hx Toy_TLS.X25519 eq_refl eq_refl eq_refl eq_refl)
      as (Hgen & Hagree).
    split; [apply Hgen | apply Hagree].
  - destruct (T 99) as (_ & _ & _ & _ & _ & _ & _ & _ & Hno).
    destruct (Hno 99 eq_refl eq_refl eq_refl eq_refl) as (Hgen & Hagree).
    split; [apply Hgen | apply Hagree].
Defined.




Lemma session_retention_decision_witness :
  let persist v hint :=
    @TLS_Callbacks.tls_should_persist_resumption_information Toy_TLS.library
      (@TLS_Callbacks.Build_Session Toy_TLS.library v hint) in
  persist Toy_TLS.TLS_V13 0 = false
  /\ persist Toy_TLS.TLS_V12 0 = true
  /\ persist Toy_TLS.TLS_V13 7200 = true.
Proof.
  cbv zeta.
  pose proof (fun v hint =>
    @session_retention_decision Toy_TLS.library
      (@TLS_Callbacks.Build_Session Toy_TLS.library v hint)) as T.
  split; [|split].
  - apply (proj1 (T Toy_TLS.TLS_V13 0)).
    + cbn. lia.
    + split; reflexivity.
  - apply (proj1 (proj2 (T Toy_TLS.TLS_V12 0))); reflexivity.
  - apply (proj2 (proj2 (T Toy_TLS.TLS_V13 7200))). cbn. lia.
Defined.

(** ** More on the EC key model *)

Lemma decode_fold (l : list byte) :
  forall acc,
    fold_left (fun a b => a * 256 + Z_of_byte b) l acc
    = acc * 256 ^ Z.of_nat (length l) + BigInt.decode l.
Proof.
  unfold BigInt.decode. induction l as [|b l IH]; intro acc.
  - cbn. lia.
  - cbn [fold_left length]. rewrite IH, (IH (0 * 256 + Z_of_byte b)).
    rewrite Nat2Z.inj_succ, Z.pow_succ_r by lia. ring.
Qed.

Lemma decode_cons (b : byte) (l : list byte) :
  BigInt.decode (b :: l)
  = Z_of_byte b * 256 ^ Z.of_nat (length l) + BigInt.decode l.
Proof.
  unfold BigInt.decode at 1. cbn [fold_left]. rewrite decode_fold. lia.
Qed.

Lemma decode_upper (l : list byte) :
  BigInt.decode l < 256 ^ Z.of_nat (length l).
Proof.
  induction l as [|b l IH] using rev_ind.
  - cbn. lia.
  - rewrite decode_snoc, length_app. cbn [length].
    rewrite Nat2Z.inj_add, Z.pow_add_r by lia.
    pose proof (Z_of_byte_range b). pose proof (decode_nonneg l).
    change (256 ^ Z.of_nat 1) with 256. lia.
Qed.

Lemma bits_abs (n : Z) : BigInt.bits (Z.abs n) = BigInt.bits n.
Proof.
  unfold BigInt.bits. rewrite Z.abs_idemp.
  destruct (Z.eqb_spec n 0) as [->|Hn]; [reflexivity|].
  destruct (Z.eqb_spec (Z.abs n) 0); [lia | reflexivity].
Qed.

Lemma bytes_abs (n : Z) : BigInt.bytes (Z.abs n) = BigInt.bytes n.
Proof. unfold BigInt.bytes. now rewrite bits_abs. Qed.

Lemma short_tag_INTEGER : DER.short_tag DER.INTEGER.
Proof. unfold DER.short_tag. vm_compute. discriminate. Qed.

(** The contents octets of a non-negative INTEGER read back. *)
Lemma integer_value_contents (v : Z) :
  0 <= v ->
  DER.integer_value (DER.integer_contents v) = v
  /\ (length (DER.integer_contents v) <= 1 + BigInt.bytes v)%nat.
Proof.
  intro Hv. unfold DER.integer_contents.
  destruct (Z.eqb_spec v 0) as [->|Hne]; [split; cbn; lia|].
  set (extra := if BigInt.bits v mod 8 =? 0 then 1%nat else 0%nat).
  set (len := (extra + BigInt.bytes v)%nat).
  assert (0 < BigInt.bytes v)%nat as Hpos by (apply bytes_pos; lia).
  assert (v < 256 ^ Z.of_nat len) as Hlt.
  { eapply Z.lt_le_trans; [apply bytes_bound; lia|].
    apply Z.pow_le_mono_r; lia. }
  rewrite (Z.mod_small v) by lia.
  split; [|rewrite length_binary_encode; unfold len, extra;
           destruct (_ =? 0); lia].
  assert (BigInt.decode (BigInt.binary_encode v len) = v) as Hdec.
  { rewrite decode_binary_encode. apply Z.mod_small. lia. }
  pose proof (length_binary_encode len v) as Hlen.
  destruct (BigInt.binary_encode v len) as [|b tl] eqn:E;
    [cbn in Hlen; lia|].
  unfold DER.integer_value. rewrite Hdec.
  destruct (Z.ltb_spec (Z_of_byte b) 128) as [_|Hhigh]; [reflexivity|].
  exfalso.
  (* the top bit of the first byte is clear *)
  rewrite decode_cons in Hdec. cbn [length] in Hlen.
  pose proof (decode_nonneg tl) as Htl.
  assert (0 < 256 ^ Z.of_nat (length tl)) as Hp
      by (apply Z.pow_pos_nonneg; lia).
  assert (v < 128 * 256 ^ Z.of_nat (length tl)) as Hsmall.
  { pose proof (bits_bound v Hv) as Hb. pose proof (bits_nonneg v) as Hbn.
    assert (BigInt.bits v <= 7 + 8 * Z.of_nat (length tl)) as Hbits.
    { assert (Z.of_nat (length tl) = Z.of_nat len - 1) as -> by lia.
      unfold len, extra, BigInt.bytes.
      rewrite Nat2Z.inj_add, Z2Nat.id by (apply Z.div_pos; lia).
      destruct (Z.eqb_spec (BigInt.bits v mod 8) 0) as [Hm|Hm];
        Z.div_mod_to_equations; lia. }
    eapply Z.lt_le_trans; [exact Hb|].
    change 128 with (2 ^ 7). change 256 with (2 ^ 8).
    rewrite <- Z.pow_mul_r, <- Z.pow_add_r by lia.
    apply Z.pow_le_mono_r; lia. }
  nia.
Qed.

Lemma expect_tag_same (tag : byte) : DER.expect_tag tag tag = OK tt.
Proof.
  unfold DER.expect_tag. now rewrite (Byte.byte_dec_lb eq_refl).
Qed.

Lemma bits_lt_32 (v : Z) : 0 <= v -> (BigInt.bits v < 32 <-> v < 2 ^ 31).
Proof.
  intro Hv. unfold BigInt.bits.
  destruct (Z.eqb_spec v 0) as [->|Hnz]; [cbn; lia|].
  rewrite Z.abs_eq by lia.
  split; intro H.
  - apply Z.log2_lt_pow2; lia.
  - assert (Z.log2 v < 31) by (apply Z.log2_lt_pow2; lia). lia.
Qed.

Lemma decode_u32bit_encode_integer_gen (v : Z) (rest : list byte) :
  0 <= v < 2 ^ 32 ->
  DER.decode_u32bit (DER.encode_integer v ++ rest)
  = if 32 <=? BigInt.bits v
    then Throw (Encoding_Error "BigInt::to_u32bit: out of range")
    else OK (v, rest).
Proof.
  intro Hv. unfold DER.decode_u32bit, DER.encode_integer.
  destruct (integer_value_contents v ltac:(lia)) as (Hval & Hlen).
  rewrite get_next_object_add_object.
  - cbn [rbind]. rewrite expect_tag_same. cbn [rbind]. rewrite Hval.
    destruct (Z.ltb_spec v 0); [lia|]. reflexivity.
  - apply short_tag_INTEGER.
  - apply length_encodable_small.
    assert (BigInt.bytes v <= 4)%nat.
    { apply bytes_le. change (256 ^ Z.of_nat 4) with (2 ^ 32). lia. }
    lia.
Qed.

Lemma decode_u32bit_encode_integer (v : Z) (rest : list byte) :
  0 <= v < 2 ^ 31 ->
  DER.decode_u32bit (DER.encode_integer v ++ rest) = OK (v, rest).
Proof.
  intro Hv. rewrite decode_u32bit_encode_integer_gen by lia.
  pose proof (bits_lt_32 v ltac:(lia)) as Hb.
  destruct (Z.leb_spec 32 (BigInt.bits v)); [lia | reflexivity].
Qed.

Lemma decode_length_app (src junk : list byte) (len : nat)
  (body : list byte) :
  DER.decode_length src = OK (len, body) ->
  DER.decode_length (src ++ junk) = OK (len, body ++ junk).
Proof.
  destruct src as [|b rest]; cbn [DER.decode_length app]; [discriminate|].
  destruct (Z_of_byte b <? 128).
  - now intros [= <- <-].
  - set (k := Z.to_nat (Z.land (Z_of_byte b) 127)).
    destruct (k =? 0)%nat; [discriminate|].
    rewrite length_app.
    destruct (Nat.ltb_spec (length rest) k) as [|Hk]; [discriminate|].
    destruct (Nat.ltb_spec (length rest + length junk) k); [lia|].
    intros [= <- <-].
    rewrite firstn_app, skipn_app.
    replace (k - length rest)%nat with 0%nat by lia.
    cbn [firstn skipn]. now rewrite app_nil_r.
Qed.

Lemma get_next_object_app (src junk : list byte) (tag : byte)
  (contents rest : list byte) :
  DER.get_next_object src = OK (tag, contents, rest) ->
  DER.get_next_object (src ++ junk) = OK (tag, contents, rest ++ junk).
Proof.
  destruct src as [|t tl]; cbn [DER.get_next_object app]; [discriminate|].
  destruct (Z.land (Z_of_byte t) 31 =? 31); [discriminate|].
  destruct (DER.decode_length tl) as [[len body]|e] eqn:E;
    cbn [rbind]; [|discriminate].
  rewrite (decode_length_app _ junk _ _ E). cbn [rbind].
  rewrite length_app.
  destruct (Nat.ltb_spec (length body) len) as [|Hb]; [discriminate|].
  destruct (Nat.ltb_spec (length body + length junk) len); [lia|].
  intros [= <- <- <-].
  rewrite firstn_app, skipn_app.
  replace (len - length body)%nat with 0%nat by lia.
  cbn [firstn skipn]. now rewrite app_nil_r.
Qed.

Lemma decode_leading_zero (l : list byte) :
  BigInt.decode (x00 :: l) = BigInt.decode l.
Proof. rewrite decode_cons. change (Z_of_byte x00) with 0. lia. Qed.

Section EC_Key_More.
Import ECC_Key ECC_Key_Encoding.
Context {L : EC_Library}.

(** What an accepted private-key encoding determines. *)
Lemma decode_OK_inv (alg_id : AlgorithmIdentifier) (key_bits : list byte)
  (k : EC_PrivateKey) :
  EC_PrivateKey_decode alg_id key_bits = OK k ->
  exists dom members rest m1 octets,
    EC_Domain_Params_decode (parameters alg_id) = OK dom
    /\ DER.start_cons key_bits = OK (members, rest)
    /\ DER.decode_u32bit members = OK (1, m1)
    /\ DER.decode_octet_string m1 = OK (octets, [])
    /\ k = stored_key dom (BigInt.decode octets)
    /\ check_invariants (point_mul (get_base_point dom)
                           (BigInt.decode octets)) = true.
Proof.
  unfold EC_PrivateKey_decode.
  destruct (EC_Domain_Params_decode (parameters alg_id)) as [dom|e] eqn:E1;
    cbn [rbind]; [|discriminate].
  destruct (DER.start_cons key_bits) as [[members rest]|e] eqn:E2;
    cbn [rbind]; [|discriminate].
  destruct (DER.decode_u32bit members) as [[v m1]|e] eqn:E3;
    cbn [rbind]; [|discriminate].
  destruct (DER.decode_octet_string m1) as [[octets m2]|e] eqn:E4;
    cbn [rbind]; [|discriminate].
  destruct m2 as [|x m2]; cbn [DER.verify_end DER.end_cons rbind];
    [|discriminate].
  destruct (Z.eqb_spec v 1) as [->|Hv]; cbn [negb]; [|discriminate].
  destruct (check_invariants _) eqn:E; [|discriminate].
  intros [= <-]. exists dom, members, rest, m1, octets.
  repeat split; try reflexivity; assumption.
Qed.

(** X12.  [EC_PublicKey(dom_par, pub_point)] checks the curve before the
    point: a curve mismatch throws [Invalid_Argument] whatever the point,
    a matching curve with a point that fails [check_invariants] throws
    [Invalid_State], and a key is returned exactly when the curves match
    and the point passes, holding the arguments with explicit encoding. *)
Theorem public_key_from_point_checks (dom : EC_Domain_Params)
  (pt : PointGFp) :
  (curve_eqb (get_curve dom) (point_get_curve pt) = false ->
   EC_PublicKey_from_point dom pt
   = Throw (Invalid_Argument "EC_PublicKey: curve mismatch in constructor"))
  /\ (curve_eqb (get_curve dom) (point_get_curve pt) = true ->
      check_invariants pt = false ->
      EC_PublicKey_from_point dom pt
      = Throw (Invalid_State "Public key failed invariant check"))
  /\ (forall k,
        EC_PublicKey_from_point dom pt = OK k <->
        (curve_eqb (get_curve dom) (point_get_curve pt) = true
         /\ check_invariants pt = true
         /\ k = {| domain_params := dom;
                   public_key := pt;
                   domain_encoding := EC_DOMPAR_ENC_EXPLICIT |})).
Proof.
  unfold EC_PublicKey_from_point, domain, public_point.
  cbn [domain_params public_key].
  destruct (curve_eqb (get_curve dom) (point_get_curve pt));
    destruct (check_invariants pt); cbn [negb];
    (split; [|split]); try discriminate; try reflexivity.
  all: intro k; split;
    [ try discriminate; intros [= <-]; auto
    | intros (H1 & H2 & H3); try discriminate; now subst k ].
Qed.

(** X14.  Over domain parameters whose order exceeds 1, so that the range
    handed to [random_integer(rng, 1, order)] is not empty and the draw
    returns, [EC_PrivateKey(rng, dom_par)] draws exactly once from the
    generator.  A key it returns holds the drawn scalar, has its public
    point in step with it, and passes [check_invariants]; its only failure
    is [Internal_Error("ECC private key generation failed")], when the
    derived point fails the check. *)
Theorem generated_key_invariant (rng : RandomNumberGenerator)
  (dom : EC_Domain_Params) :
  1 < get_order dom ->
  let draw := random_integer rng 1 (get_order dom) in
  snd (EC_PrivateKey_generate rng dom) = snd draw
  /\ (forall k,
        fst (EC_PrivateKey_generate rng dom) = OK k ->
        k = stored_key dom (fst draw)
        /\ in_sync k
        /\ check_invariants (public_key (as_public k)) = true)
  /\ (forall e,
        fst (EC_PrivateKey_generate rng dom) = Throw e ->
        e = Internal_Error "ECC private key generation failed"
        /\ check_invariants (point_mul (get_base_point dom) (fst draw))
           = false).
Proof.
  intros _. unfold EC_PrivateKey_generate.
  destruct (random_integer rng 1 (get_order dom)) as [x rng'].
  cbn [fst snd]. split; [reflexivity|].
  destruct (check_invariants (point_mul (get_base_point dom) x)) eqn:E;
    split; intros ? H; try discriminate; injection H as <-.
  - split; [reflexivity|]. split; [reflexivity | exact E].
  - auto.
Qed.

(** X15.  Every key the decoding constructor returns has the domain
    parameters decoded from the algorithm identifier, a public point that
    is the scalar multiple of the base point and passes
    [check_invariants], explicit parameter encoding, and a scalar that is
    not negative (it may be zero). *)
Theorem decoded_key_invariant (alg_id : AlgorithmIdentifier)
  (key_bits : list byte) (k : EC_PrivateKey) :
  EC_PrivateKey_decode alg_id key_bits = OK k ->
  EC_Domain_Params_decode (parameters alg_id) = OK (domain (as_public k))
  /\ in_sync k
  /\ check_invariants (public_key (as_public k)) = true
  /\ domain_encoding (as_public k) = EC_DOMPAR_ENC_EXPLICIT
  /\ 0 <= private_key k.
Proof.
  intro H. destruct (decode_OK_inv _ _ _ H)
    as (dom & members & rest & m1 & octets & Hd & _ & _ & _ & -> & Hc).
  cbn. repeat split; try assumption. apply decode_nonneg.
Qed.


(** X18.  The decoding constructor does not look past the key's SEQUENCE:
    once the outer object parses, appending any bytes to the input leaves
    the outcome unchanged; in particular an accepted encoding followed by
    arbitrary bytes is accepted with the same key. *)
Theorem decode_ignores_bytes_after_the_sequence
  (alg_id : AlgorithmIdentifier) (key_bits junk : list byte) :
  (forall members rest,
      DER.start_cons key_bits = OK (members, rest) ->
      EC_PrivateKey_decode alg_id (key_bits ++ junk)
      = EC_PrivateKey_decode alg_id key_bits)
  /\ (forall k,
        EC_PrivateKey_decode alg_id key_bits = OK k ->
        EC_PrivateKey_decode alg_id (key_bits ++ junk) = OK k).
Proof.
  assert (forall members rest,
             DER.start_cons key_bits = OK (members, rest) ->
             EC_PrivateKey_decode alg_id (key_bits ++ junk)
             = EC_PrivateKey_decode alg_id key_bits) as Hgen.
  { intros members rest Hs. unfold EC_PrivateKey_decode.
    destruct (EC_Domain_Params_decode (parameters alg_id)) as [dom|e];
      cbn [rbind]; [|reflexivity].
    rewrite Hs. unfold DER.start_cons in Hs |- *.
    destruct (DER.get_next_object key_bits) as [[[tag c] r]|e] eqn:E;
      cbn [rbind] in Hs; [|discriminate].
    rewrite (get_next_object_app _ junk _ _ _ E). cbn [rbind].
    destruct (DER.expect_tag DER.SEQUENCE tag); cbn [rbind] in Hs |- *;
      [|discriminate].
    injection Hs as <- <-. reflexivity. }
  split; [exact Hgen|].
  intros k Hk. destruct (decode_OK_inv _ _ _ Hk)
    as (dom & members & rest & _ & _ & _ & Hs & _).
  now rewrite (Hgen _ _ Hs).
Qed.

(** X17.  Bytes left inside the SEQUENCE after the octet string make the
    decoding constructor fail ([verify_end]), whatever the scalar: no key
    is returned. *)
Theorem decode_rejects_extra_members (alg_id : AlgorithmIdentifier)
  (dom : EC_Domain_Params) (octets extra : list byte) :
  EC_Domain_Params_decode (parameters alg_id) = OK dom ->
  Z.of_nat (length octets) + Z.of_nat (length extra) < 2 ^ 32 ->
  extra <> [] ->
  exists e,
    EC_PrivateKey_decode alg_id
      (DER.encode_sequence
         (DER.encode_integer 1 ++ DER.encode_octet_string octets ++ extra))
    = Throw e.
Proof.
  intros Hdom Hsz Hne.
  assert (DER.length_encodable (length octets)) as Henc
      by (apply length_encodable_small; lia).
  unfold EC_PrivateKey_decode. rewrite Hdom. cbn [rbind].
  rewrite start_cons_encode_sequence.
  - cbn [rbind]. rewrite decode_u32bit_version_1. cbn [rbind].
    rewrite decode_octet_string_encode by assumption. cbn [rbind].
    destruct extra; [contradiction | eexists; reflexivity].
  - apply length_encodable_small. rewrite !length_app, encode_integer_1.
    pose proof (length_add_object DER.OCTET_STRING octets Henc) as Ho.
    unfold DER.encode_octet_string. cbn [length]. lia.
Qed.

(** X20.  A key accepted by the decoding constructor encodes with
    [pkcs8_private_key], and that encoding decodes to the same key: each
    accepted input has a canonical re-encoding that the decoder maps to
    the identical key. *)
Theorem decoded_key_reencodes (alg_id : AlgorithmIdentifier)
  (key_bits : list byte) (k : EC_PrivateKey) :
  EC_PrivateKey_decode alg_id key_bits = OK k ->
  Z.of_nat (BigInt.bytes (private_key k)) < 2 ^ 32 ->
  exists key_bits',
    pkcs8_private_key k = OK key_bits'
    /\ EC_PrivateKey_decode alg_id key_bits' = OK k.
Proof.
  intros H Hsz. destruct (decode_OK_inv _ _ _ H)
    as (dom & members & rest & m1 & octets & Hd & _ & _ & _ & -> & Hc).
  cbn [stored_key private_key] in Hsz.
  destruct (decode_of_encoded_scalar alg_id dom (BigInt.decode octets) Hd
              (decode_nonneg octets) Hsz) as (bits' & Henc & Hdec).
  rewrite Hc in Hdec. eauto.
Qed.

Lemma OK_inj {A : Type} (a b : A) : OK a = OK b -> a = b.
Proof. now intros [= ->]. Qed.

Lemma pkcs8_explicit (k : EC_PrivateKey) :
  pkcs8_private_key k
  = OK (DER.encode_sequence
          (DER.encode_integer 1
           ++ DER.encode_octet_string
                (BigInt.binary_encode (Z.abs (private_key k))
                   (BigInt.bytes (private_key k))))).
Proof.
  unfold pkcs8_private_key, BigInt.encode_1363.
  now rewrite Nat.ltb_irrefl.
Qed.

(** X21.  [pkcs8_private_key] never throws (the width it passes to
    [encode_1363] is the scalar's own byte count), its output depends only
    on the magnitude of the scalar, and for scalars of byte length below
    2^32 different magnitudes give different encodings. *)
Theorem pkcs8_encodes_the_magnitude (k k' : EC_PrivateKey) :
  (exists key_bits, pkcs8_private_key k = OK key_bits)
  /\ (Z.abs (private_key k) = Z.abs (private_key k') ->
      pkcs8_private_key k = pkcs8_private_key k')
  /\ (Z.of_nat (BigInt.bytes (private_key k)) < 2 ^ 32 ->
      Z.of_nat (BigInt.bytes (private_key k')) < 2 ^ 32 ->
      pkcs8_private_key k = pkcs8_private_key k' ->
      Z.abs (private_key k) = Z.abs (private_key k')).
Proof.
  rewrite !pkcs8_explicit. split; [eauto|]. split.
  - intro Habs.
    rewrite <- (bytes_abs (private_key k)), <- (bytes_abs (private_key k')).
    now rewrite Habs.
  - intros Hs Hs' Heq. apply OK_inj in Heq.
    rewrite <- (bytes_abs (private_key k)) in Heq, Hs.
    rewrite <- (bytes_abs (private_key k')) in Heq, Hs'.
    destruct (pkcs8_fields_read_back (Z.abs (private_key k))
                ltac:(lia) Hs) as (Hseq & Hoct & Hval).
    destruct (pkcs8_fields_read_back (Z.abs (private_key k'))
                ltac:(lia) Hs') as (Hseq' & Hoct' & Hval').
    cbv zeta in *. rewrite Heq in Hseq. rewrite Hseq' in Hseq.
    apply OK_inj in Hseq.
    assert (DER.encode_integer 1
            ++ DER.encode_octet_string
                 (BigInt.binary_encode (Z.abs (private_key k'))
                    (BigInt.bytes (Z.abs (private_key k'))))
            = DER.encode_integer 1
              ++ DER.encode_octet_string
                   (BigInt.binary_encode (Z.abs (private_key k))
                      (BigInt.bytes (Z.abs (private_key k))))) as Hm
        by congruence.
    apply app_inv_head in Hm.
    rewrite Hm in Hoct'. rewrite Hoct' in Hoct. apply OK_inj in Hoct.
    assert (BigInt.binary_encode (Z.abs (private_key k'))
              (BigInt.bytes (Z.abs (private_key k')))
            = BigInt.binary_encode (Z.abs (private_key k))
                (BigInt.bytes (Z.abs (private_key k)))) as Ho
        by congruence.
    rewrite <- Hval, <- Hval'. now rewrite Ho.
Qed.

(** What the decoder makes of a well-formed encoding with version 1. *)
Lemma decode_of_fields (alg_id : AlgorithmIdentifier)
  (dom : EC_Domain_Params) (octets : list byte) :
  EC_Domain_Params_decode (parameters alg_id) = OK dom ->
  Z.of_nat (length octets) < 2 ^ 32 ->
  EC_PrivateKey_decode alg_id
    (DER.encode_sequence
       (DER.encode_integer 1 ++ DER.encode_octet_string octets))
  = if check_invariants
         (point_mul (get_base_point dom) (BigInt.decode octets))
    then OK (stored_key dom (BigInt.decode octets))
    else Throw (Internal_Error "Loaded ECC private key failed self test").
Proof.
  intros Hdom Hsz.
  assert (DER.length_encodable (length octets)) as Henc
      by (apply length_encodable_small; lia).
  unfold EC_PrivateKey_decode. rewrite Hdom. cbn [rbind].
  rewrite start_cons_encode_sequence.
  - cbn [rbind]. rewrite decode_u32bit_version_1. cbn [rbind].
    rewrite <- (app_nil_r (DER.encode_octet_string _)).
    rewrite decode_octet_string_encode by assumption.
    cbn [rbind DER.verify_end DER.end_cons Z.eqb Pos.eqb negb].
    reflexivity.
  - apply length_encodable_small. rewrite length_app, encode_integer_1.
    pose proof (length_add_object DER.OCTET_STRING octets Henc) as Ho.
    unfold DER.encode_octet_string. cbn [length]. lia.
Qed.

(** X19.  The decoder reads the scalar as a big-endian number of any
    width: a zero byte in front of the octet string changes nothing in the
    outcome, so encodings of a key are not unique. *)
Theorem decode_accepts_leading_zeros (alg_id : AlgorithmIdentifier)
  (dom : EC_Domain_Params) (octets : list byte) :
  EC_Domain_Params_decode (parameters alg_id) = OK dom ->
  Z.of_nat (length octets) + 1 < 2 ^ 32 ->
  EC_PrivateKey_decode alg_id
    (DER.encode_sequence
       (DER.encode_integer 1 ++ DER.encode_octet_string (x00 :: octets)))
  = EC_PrivateKey_decode alg_id
      (DER.encode_sequence
         (DER.encode_integer 1 ++ DER.encode_octet_string octets)).
Proof.
  intros Hdom Hsz.
  rewrite !(decode_of_fields _ dom) by (cbn [length]; lia || assumption).
  now rewrite decode_leading_zero.
Qed.

(** X13.  [set_parameter_encoding] succeeds exactly when the form is one
    of the three enumerators and, for [EC_DOMPAR_ENC_OID], the domain
    parameters carry a non-empty oid.  On success only the encoding form
    changes; every failure is an [Invalid_Argument]. *)
Theorem set_parameter_encoding_outcome (this : EC_PublicKey)
  (form : encoding_argument) :
  ((exists k, set_parameter_encoding this form = OK k)
   <-> exists f,
        form = Enumerator f
        /\ (f = EC_DOMPAR_ENC_OID -> get_oid (domain_params this) <> ""%string))
  /\ (forall k,
        set_parameter_encoding this form = OK k ->
        domain_params k = domain_params this
        /\ public_key k = public_key this
        /\ form = Enumerator (domain_encoding k))
  /\ (forall e,
        set_parameter_encoding this form = Throw e ->
        exists what, e = Invalid_Argument what).
Proof.
  unfold set_parameter_encoding. destruct form as [f|code].
  - destruct (is_EC_DOMPAR_ENC_OID f
              && String.eqb (get_oid (domain_params this)) "") eqn:Hbad.
    + apply andb_true_iff in Hbad. destruct Hbad as (Hf & Ho).
      apply String.eqb_eq in Ho.
      assert (f = EC_DOMPAR_ENC_OID) as -> by (destruct f; now try discriminate).
      split; [split|split].
      * intros [k Hk]. discriminate.
      * intros (f' & Hf' & Hoid). exfalso. apply Hoid; [congruence|exact Ho].
      * intros k Hk. discriminate.
      * intros e [= <-]. eauto.
    + split; [split|split].
      * intros _. exists f. split; [reflexivity|]. intros -> Ho.
        cbn [is_EC_DOMPAR_ENC_OID andb] in Hbad.
        apply String.eqb_neq in Hbad. contradiction.
      * intros _. eauto.
      * intros k [= <-]. cbn. auto.
      * intros e He. discriminate.
  - split; [split|split].
    + intros [k Hk]. discriminate.
    + intros (f & Hf & _). discriminate.
    + intros k Hk. discriminate.
    + intros e [= <-]. eauto.
Qed.

End EC_Key_More.

(** ** More on the TLS callbacks *)

Section Callback_More.
Import TLS_Callbacks.
Context {L : TLS_Library} {PK : PK_Library}.

(** Every run of the agreement either stops before any call, or is the
    policy check of one peer key followed by the agreement primitive. *)
Lemma agreement_shape (group : Group) (sk : PK_Key_Agreement_Key)
  (pv : list byte) (rng : RandomNumberGenerator) (policy : Policy) :
  (exists e,
      tls_ephemeral_key_agreement group sk pv rng policy = ([], Throw e))
  \/ (exists pk,
        tls_ephemeral_key_agreement group sk pv rng policy
        = check_then_agree policy rng sk pk).
Proof.
  destruct (is_dh_group group) eqn:Hdh.
  - destruct (get_dl_group group) as [dl|e] eqn:Hdl.
    + rewrite (agreement_dh _ _ _ _ _ _ Hdh Hdl).
      destruct (_ || _); [left|right]; eauto.
    + left. exists e. unfold tls_ephemeral_key_agreement.
      rewrite Hdh, Hdl. reflexivity.
  - destruct group as [gp|dl]; [|discriminate]. cbn [is_dh_group] in Hdh.
    rewrite agreement_named by assumption.
    destruct (is_ecdh gp).
    + destruct (EC_Group_from_name (group_param_to_string gp)) as [ec|e].
      * destruct (EC_Group_OS2ECP ec pv) as [pt|e] eqn:Ept.
        -- right. exists (ECDH_PublicKey ec pt).
           rewrite (bind_lift_OK _ ec _ eq_refl).
           now rewrite (bind_lift_OK _ pt _ Ept).
        -- left. exists e. rewrite (bind_lift_OK _ ec _ eq_refl).
           rewrite Ept. reflexivity.
      * left. exists e. reflexivity.
    + destruct (BOTAN_HAS_CURVE_25519 && is_x25519 gp).
      * destruct (negb _); [left|right]; eexists; reflexivity.
      * left. eexists. reflexivity.
Qed.

(** X5.  When the policy rejects the peer key, its exception is the outcome
    of the agreement and the agreement primitive is not called: the call
    log is the policy check alone. *)
Theorem policy_rejection_stops_agreement (group : Group)
  (sk : PK_Key_Agreement_Key) (pv : list byte)
  (rng : RandomNumberGenerator) (policy : Policy) (pk : Public_Key)
  (e : exception) :
  In (Ev_check_peer_key_acceptable pk)
     (trace (tls_ephemeral_key_agreement group sk pv rng policy)) ->
  check_peer_key_acceptable policy pk = Throw e ->
  tls_ephemeral_key_agreement group sk pv rng policy
  = ([Ev_check_peer_key_acceptable pk], Throw e).
Proof.
  intros Hin Hrej.
  destruct (agreement_shape group sk pv rng policy) as [[e' H]|[pk' H]];
    rewrite H in Hin |- *.
  - destruct Hin.
  - apply trace_check_then_agree in Hin. subst pk'.
    unfold check_then_agree. now rewrite Hrej.
Qed.

(** X6.  The agreement primitive is called at most once, only after the
    policy accepted the peer key, and then on the caller's private key,
    output length 0 and that key's public value; its result is the
    outcome. *)
Theorem agreement_only_after_policy_accepts (group : Group)
  (sk : PK_Key_Agreement_Key) (pv : list byte)
  (rng : RandomNumberGenerator) (policy : Policy)
  (sk' : PK_Key_Agreement_Key) (key_len : Z) (peer_value : list byte) :
  In (Ev_derive_key sk' key_len peer_value)
     (trace (tls_ephemeral_key_agreement group sk pv rng policy)) ->
  exists pk,
    check_peer_key_acceptable policy pk = OK tt
    /\ sk' = sk /\ key_len = 0 /\ peer_value = public_value pk
    /\ tls_ephemeral_key_agreement group sk pv rng policy
       = ([Ev_check_peer_key_acceptable pk;
           Ev_derive_key sk 0 (public_value pk)],
          derive_key sk rng "Raw" 0 (public_value pk)).
Proof.
  intro Hin.
  destruct (agreement_shape group sk pv rng policy) as [[e' H]|[pk H]];
    rewrite H in Hin |- *.
  - destruct Hin.
  - exists pk. unfold check_then_agree in *.
    destruct (check_peer_key_acceptable policy pk) as [[]|e] eqn:E.
    + cbn in Hin. destruct Hin as [Hin|[Hin|[]]]; [discriminate|].
      injection Hin as <- <- <-. auto.
    + cbn in Hin. destruct Hin as [Hin|[]]. discriminate.
Qed.

(** X9.  On the elliptic-curve path a peer value that does not decode to a point
    ends the agreement with the decoder's exception before any call; one
    that decodes goes to the policy check and the agreement. *)
Theorem ecdh_peer_point_is_decoded_first (gp : Group_Params)
  (sk : PK_Key_Agreement_Key) (pv : list byte)
  (rng : RandomNumberGenerator) (policy : Policy) (ec : EC_Group) :
  is_dh gp = false -> is_ecdh gp = true ->
  EC_Group_from_name (group_param_to_string gp) = OK ec ->
  (forall e,
      EC_Group_OS2ECP ec pv = Throw e ->
      tls_ephemeral_key_agreement (Named gp) sk pv rng policy
      = ([], Throw e))
  /\ (forall pt,
        EC_Group_OS2ECP ec pv = OK pt ->
        tls_ephemeral_key_agreement (Named gp) sk pv rng policy
        = check_then_agree policy rng sk (ECDH_PublicKey ec pt)).
Proof.
  intros Hdh Hec Hgrp. rewrite agreement_named by assumption.
  rewrite Hec, (bind_lift_OK _ ec _ Hgrp). split.
  - intros e ->. reflexivity.
  - intros pt Hpt. now rewrite (bind_lift_OK _ pt _ Hpt).
Qed.

(** X10.  A named group that is neither finite-field nor elliptic-curve nor,
    in a build with Curve25519, X25519, is refused by both operations: key
    generation with a [DecodeError] alert, agreement with an
    [IllegalParameter] alert and no call made. *)
Theorem unrecognised_group_refused_by_both (gp : Group_Params)
  (sk : PK_Key_Agreement_Key) (pv : list byte)
  (rng : RandomNumberGenerator) (policy : Policy) :
  is_dh gp = false -> is_ecdh gp = false ->
  BOTAN_HAS_CURVE_25519 && is_x25519 gp = false ->
  tls_generate_ephemeral_key (Named gp) rng
  = Throw (TLS_Exception DecodeError
             "cannot create a key offering without a group definition")
  /\ tls_ephemeral_key_agreement (Named gp) sk pv rng policy
     = ([], Throw (TLS_Exception IllegalParameter
                     "Did not recognize the key exchange group")).
Proof.
  intros Hdh Hec Hx. rewrite generate_named, agreement_named by assumption.
  now rewrite Hec, Hx.
Qed.

(** X11.  Every key that key generation returns is built by the
    constructor of the group's own family from the caller's generator and
    the group the specification resolves to: a finite-field key over the
    explicit parameters as given, or over the table entry of a named
    finite-field group; an elliptic-curve key over the curve looked up for
    a named elliptic-curve group; an X25519 key for the X25519 identifier
    in a build with Curve25519.  No key is returned for any other
    group. *)
Theorem generated_key_provenance (group : Group)
  (rng : RandomNumberGenerator) (k : PK_Key_Agreement_Key) :
  tls_generate_ephemeral_key group rng = OK k ->
  (exists dl, group = Explicit dl /\ k = DH_PrivateKey rng dl)
  \/ (exists gp dl,
        group = Named gp /\ is_dh gp = true
        /\ DL_Group_from_name (group_param_to_string gp) = OK dl
        /\ k = DH_PrivateKey rng dl)
  \/ (exists gp ec,
        group = Named gp /\ is_dh gp = false /\ is_ecdh gp = true
        /\ EC_Group_from_name (group_param_to_string gp) = OK ec
        /\ k = ECDH_PrivateKey rng ec)
  \/ (exists gp,
        group = Named gp /\ is_dh gp = false /\ is_ecdh gp = false
        /\ BOTAN_HAS_CURVE_25519 && is_x25519 gp = true
        /\ k = X25519_PrivateKey rng).
Proof.
  destruct group as [gp|dl].
  - intro H. right. destruct (is_dh gp) eqn:Hdh.
    + left. rewrite generate_dh in H by exact Hdh.
      unfold get_dl_group in H. cbn [is_dh_group] in H. rewrite Hdh in H.
      cbn [BOTAN_ASSERT_NOMSG rbind] in H.
      destruct (DL_Group_from_name _) as [dl|e] eqn:Hdl; cbn [rbind] in H;
        [|discriminate].
      exists gp, dl. repeat split; congruence.
    + right. rewrite generate_named in H by exact Hdh.
      destruct (is_ecdh gp) eqn:Hec.
      * left. destruct (EC_Group_from_name _) as [ec|e] eqn:Hlookup;
          cbn [rbind] in H; [|discriminate].
        exists gp, ec. repeat split; congruence.
      * right. destruct (BOTAN_HAS_CURVE_25519 && is_x25519 gp) eqn:Hx;
          [|discriminate].
        exists gp. repeat split; congruence.
  - rewrite generate_dh by reflexivity. cbn. intros [= <-].
    left. exists dl. split; reflexivity.
Qed.

(** X7.  A finite-field public key reaches the policy only on the
    finite-field path, over the group the specification resolves to, with
    the value decoded from the peer's bytes, and only if that value lies
    strictly between 1 and [p - 1]. *)
Theorem dh_key_seen_by_policy_is_in_range (group : Group)
  (sk : PK_Key_Agreement_Key) (pv : list byte)
  (rng : RandomNumberGenerator) (policy : Policy) (dl : DL_Group) (y : Z) :
  In (Ev_check_peer_key_acceptable (DH_PublicKey dl y))
     (trace (tls_ephemeral_key_agreement group sk pv rng policy)) ->
  is_dh_group group = true
  /\ get_dl_group group = OK dl
  /\ y = BigInt.decode pv
  /\ 1 < y < get_p dl - 1.
Proof.
  intro Hin.
  assert (is_dh_group group = true) as Hdh.
  { apply selected_family_finite_field.
    symmetry. exact (agreement_family _ _ _ _ _ _ Hin). }
  split; [exact Hdh|].
  destruct (get_dl_group group) as [dl'|e] eqn:Hdl.
  - rewrite (agreement_dh _ _ _ _ _ _ Hdh Hdl) in Hin.
    destruct (Z.leb_spec (BigInt.decode pv) 1);
      destruct (Z.geb_spec (BigInt.decode pv) (get_p dl' - 1));
      cbn [orb] in Hin; try (destruct Hin; fail).
    apply trace_check_then_agree in Hin. injection Hin as Hd Hy.
    subst dl' y. repeat split; lia.
  - unfold tls_ephemeral_key_agreement in Hin. rewrite Hdh, Hdl in Hin.
    destruct Hin.
Qed.

(** X8.  On the finite-field path a zero byte in front of the peer's value
    changes nothing: the value is read as a big-endian integer of any
    width. *)
Theorem dh_peer_value_leading_zeros (group : Group)
  (sk : PK_Key_Agreement_Key) (pv : list byte)
  (rng : RandomNumberGenerator) (policy : Policy) :
  is_dh_group group = true ->
  tls_ephemeral_key_agreement group sk (x00 :: pv) rng policy
  = tls_ephemeral_key_agreement group sk pv rng policy.
Proof.
  intro Hdh. unfold tls_ephemeral_key_agreement. rewrite Hdh.
  now rewrite decode_leading_zero.
Qed.

(** X1.  [tls_verify_cert_chain] returns normally exactly when the chain is
    not empty and path validation, run with the policy's two settings and
    the hostname bound as the usage demands, reports success; a failed
    validation of a non-empty chain throws the [BadCertificate] alert
    whose message ends in the validator's result string. *)
Theorem cert_chain_verdict (this : Callbacks)
  (cert_chain : list X509_Certificate)
  (ocsp_responses : list (option OCSP_Response))
  (trusted_roots : list Certificate_Store) (usage : Usage_Type)
  (hostname : string) (policy : Policy) :
  let run :=
    tls_verify_cert_chain this cert_chain ocsp_responses trusted_roots
      usage hostname policy in
  let verdict :=
    x509_path_validate cert_chain
      {| require_revocation_information :=
           require_cert_revocation_info policy;
         minimum_key_strength := minimum_signature_strength policy |}
      trusted_roots
      (if Usage_Type_eqb usage TLS_SERVER_AUTH then hostname
       else EmptyString)
      usage (tls_current_timestamp this)
      (tls_verify_cert_chain_ocsp_timeout this) ocsp_responses in
  (snd run = OK tt
   <-> (cert_chain <> [] /\ successful_validation verdict = true))
  /\ (cert_chain <> [] -> successful_validation verdict = false ->
      snd run
      = Throw (TLS_Exception BadCertificate
                 ("Certificate validation failure: "
                  ++ result_string verdict))).
Proof.
  intros run verdict. subst run.
  destruct cert_chain as [|c cs].
  - cbn. split; [split|]; intros; try discriminate; tauto.
  - unfold tls_verify_cert_chain, bind, call. fold verdict.
    destruct (successful_validation verdict) eqn:E; cbn [negb ret throw snd].
    + split; [split|]; intros; try discriminate; auto.
      split; [discriminate | reflexivity].
    + split; [split|]; intros; try discriminate.
      * destruct H; discriminate.
      * reflexivity.
Qed.

(** X2.  For every usage other than [TLS_SERVER_AUTH] the hostname has no
    influence: two runs that differ only in the hostname make the same
    calls and end the same way. *)
Theorem hostname_ignored_unless_server_auth (this : Callbacks)
  (cert_chain : list X509_Certificate)
  (ocsp_responses : list (option OCSP_Response))
  (trusted_roots : list Certificate_Store) (usage : Usage_Type)
  (hostname hostname' : string) (policy : Policy) :
  usage <> TLS_SERVER_AUTH ->
  tls_verify_cert_chain this cert_chain ocsp_responses trusted_roots usage
    hostname policy
  = tls_verify_cert_chain this cert_chain ocsp_responses trusted_roots usage
      hostname' policy.
Proof.
  intro Hu. unfold tls_verify_cert_chain.
  destruct usage; try reflexivity. contradiction.
Qed.

(** X3.  [tls_parse_ocsp_response] throws exactly when the parser throws
    an exception that is not a [Decoding_Error], and then it throws that
    same exception. *)
Theorem ocsp_failure_iff (raw_response : list byte) (e : exception) :
  tls_parse_ocsp_response raw_response = Throw e
  <-> (OCSP_Response_parse raw_response = Throw e
       /\ forall what, e <> Decoding_Error what).
Proof.
  unfold tls_parse_ocsp_response.
  destruct (OCSP_Response_parse raw_response) as [r|e0].
  - split; [discriminate | intros [H _]; discriminate].
  - destruct e0; split;
      try (intros [= <-]; split; [reflexivity | discriminate]);
      try (intros [[= <-] _]; reflexivity);
      try discriminate.
    intros [[= <-] H]. exfalso. now apply (H what).
Qed.

End Callback_More.

Section Status_Facts.
Import TLS_Status.
Context {Certificate Status_Request : Type}.

(** X4.  [tls_provide_cert_chain_status] returns one entry per certificate
    of the chain; for a non-empty chain the first entry is what
    [tls_provide_cert_status] returns and every other entry is empty. *)
Theorem cert_chain_status_leaf_only
  (tls_provide_cert_status :
     list Certificate -> Status_Request -> list byte)
  (chain : list Certificate) (csr : Status_Request) :
  let result :=
    tls_provide_cert_chain_status tls_provide_cert_status chain csr in
  length result = length chain
  /\ (chain <> [] ->
      nth_error result 0 = Some (tls_provide_cert_status chain csr))
  /\ (forall i, (0 < i < length chain)%nat -> nth_error result i = Some []).
Proof.
  cbv zeta. unfold tls_provide_cert_chain_status.
  destruct chain as [|c cs].
  - cbn. split; [reflexivity|]. split; [congruence | intros; lia].
  - cbn [length repeat assign_front]. split; [|split].
    + cbn [length]. now rewrite repeat_length.
    + reflexivity.
    + intros [|i] Hi; [lia|]. cbn [nth_error].
      apply nth_error_repeat. lia.
Qed.

End Status_Facts.

(** ** The timer *)

Section Timer_Facts.
Import Timer.

Lemma byte_of_Z_of_byte (b : byte) : byte_of_Z (Z_of_byte b) = b.
Proof.
  unfold byte_of_Z, Z_of_byte.
  pose proof (Byte.to_N_bounded b) as Hb.
  rewrite Z.mod_small by lia. rewrite N2Z.id.
  now rewrite Byte.of_to_N.
Qed.

Lemma lxor_byte_range (a b : Z) :
  0 <= a < 256 -> 0 <= b < 256 -> 0 <= Z.lxor a b < 256.
Proof.
  intros Ha Hb.
  assert (0 <= Z.lxor a b) as Hn by (apply Z.lxor_nonneg; lia).
  split; [exact Hn|].
  destruct (Z.eq_dec (Z.lxor a b) 0) as [->|Hne]; [lia|].
  change 256 with (2 ^ 8). apply Z.log2_lt_pow2; [lia|].
  eapply Z.le_lt_trans; [apply Z.log2_lxor; lia|].
  apply Z.max_lub_lt.
  - destruct (Z.eq_dec a 0) as [->|]; [cbn; lia|].
    apply Z.log2_lt_pow2; [lia|]. change (2 ^ 8) with 256. lia.
  - destruct (Z.eq_dec b 0) as [->|]; [cbn; lia|].
    apply Z.log2_lt_pow2; [lia|]. change (2 ^ 8) with 256. lia.
Qed.

Lemma Z_of_byte_xor (a b : byte) :
  Z_of_byte (byte_xor a b) = Z.lxor (Z_of_byte a) (Z_of_byte b).
Proof.
  unfold byte_xor. rewrite Z_of_byte_of_Z.
  apply Z.mod_small. apply lxor_byte_range; apply Z_of_byte_range.
Qed.

Lemma Z_of_byte_inj (a b : byte) : Z_of_byte a = Z_of_byte b -> a = b.
Proof.
  intro H. rewrite <- (byte_of_Z_of_byte a), <- (byte_of_Z_of_byte b).
  now rewrite H.
Qed.

Lemma byte_xor_cancel (a b : byte) : byte_xor (byte_xor a b) b = a.
Proof.
  apply Z_of_byte_inj. rewrite !Z_of_byte_xor.
  now rewrite Z.lxor_assoc, Z.lxor_nilpotent, Z.lxor_0_r.
Qed.

Lemma byte_xor_swap (a b c : byte) :
  byte_xor (byte_xor a b) c = byte_xor (byte_xor a c) b.
Proof.
  apply Z_of_byte_inj. rewrite !Z_of_byte_xor.
  rewrite !Z.lxor_assoc. f_equal. apply Z.lxor_comm.
Qed.

Lemma xor_at_Some (out : list byte) :
  forall i b, (i < length out)%nat -> exists out', xor_at out i b = Some out'.
Proof.
  induction out as [|a tl IH]; intros i b Hi; cbn in Hi; [lia|].
  destruct i as [|i']; cbn [xor_at]; [eauto|].
  destruct (IH i' b ltac:(lia)) as [tl' ->]. eauto.
Qed.

Lemma xor_at_spec (out : list byte) :
  forall i b out',
    xor_at out i b = Some out' ->
    length out' = length out
    /\ nth_error out' i = option_map (fun a => byte_xor a b) (nth_error out i)
    /\ (i < length out)%nat
    /\ forall k, k <> i -> nth_error out' k = nth_error out k.
Proof.
  induction out as [|a tl IH]; intros i b out' H; cbn [xor_at] in H;
    [discriminate|].
  destruct i as [|i'].
  - injection H as <-. cbn. repeat split; try lia.
    intros [|k] Hk; [congruence | reflexivity].
  - destruct (xor_at tl i' b) as [tl'|] eqn:E; [|discriminate].
    injection H as <-. destruct (IH _ _ _ E) as (Hl & Hn & Hi & Hf).
    cbn. repeat split; try lia; try assumption.
    intros [|k] Hk; [reflexivity|]. cbn. apply Hf. congruence.
Qed.

Lemma xor_at_cancel (out : list byte) :
  forall i b out',
    xor_at out i b = Some out' -> xor_at out' i b = Some out.
Proof.
  induction out as [|a tl IH]; intros i b out' H; cbn [xor_at] in H;
    [discriminate|].
  destruct i as [|i'].
  - injection H as <-. cbn. now rewrite byte_xor_cancel.
  - destruct (xor_at tl i' b) as [tl'|] eqn:E; [|discriminate].
    injection H as <-. cbn. now rewrite (IH _ _ _ E).
Qed.

Lemma xor_at_commute (out : list byte) :
  forall i b j c o1 o2,
    xor_at out i b = Some o1 -> xor_at o1 j c = Some o2 ->
    exists o1', xor_at out j c = Some o1' /\ xor_at o1' i b = Some o2.
Proof.
  induction out as [|a tl IH]; intros i b j c o1 o2 H1 H2;
    cbn [xor_at] in H1; [discriminate|].
  destruct i as [|i'].
  - injection H1 as <-. destruct j as [|j']; cbn [xor_at] in H2 |- *.
    + injection H2 as <-. eexists. split; [reflexivity|].
      cbn. now rewrite byte_xor_swap.
    + destruct (xor_at tl j' c) as [tl'|]; [|discriminate].
      injection H2 as <-. eexists. split; reflexivity.
  - destruct (xor_at tl i' b) as [t1|] eqn:E1; [|discriminate].
    injection H1 as <-. destruct j as [|j']; cbn [xor_at] in H2 |- *.
    + injection H2 as <-. eexists. split; [reflexivity|].
      cbn. now rewrite E1.
    + destruct (xor_at t1 j' c) as [t2|] eqn:E2; [|discriminate].
      injection H2 as <-.
      destruct (IH _ _ _ _ _ _ E1 E2) as (t1' & Ha & Hb).
      rewrite Ha. eexists. split; [reflexivity|]. cbn. now rewrite Hb.
Qed.

Section Loop.
Variable get_byte : nat -> Z -> byte.
Variable clock_value : Z.
Variable len : nat.

Lemma poll_loop_commute (count : nat) :
  forall j out i b o1 o2,
    xor_at out i b = Some o1 ->
    poll_loop get_byte clock_value len j count o1 = Some o2 ->
    exists o1',
      poll_loop get_byte clock_value len j count out = Some o1'
      /\ xor_at o1' i b = Some o2.
Proof.
  induction count as [|c IH]; intros j out i b o1 o2 Hx Hl;
    cbn [poll_loop] in Hl |- *.
  - injection Hl as <-. eauto.
  - destruct (xor_at o1 (j mod len) (get_byte j clock_value)) as [o1x|] eqn:E;
      [|discriminate].
    destruct (xor_at_commute _ _ _ _ _ _ _ Hx E) as (o' & Ha & Hb).
    rewrite Ha. eapply IH; eassumption.
Qed.

Lemma poll_loop_cancel (count : nat) :
  forall j out out',
    poll_loop get_byte clock_value len j count out = Some out' ->
    poll_loop get_byte clock_value len j count out' = Some out.
Proof.
  induction count as [|c IH]; intros j out out' H; cbn [poll_loop] in H |- *.
  - now injection H as <-.
  - destruct (xor_at out (j mod len) (get_byte j clock_value)) as [o1|] eqn:E;
      [|discriminate].
    pose proof (IH _ _ _ H) as Hback.
    (* out' = loop o1; loop out' = o1; and o1 = xor_at out. *)
    apply xor_at_cancel in E.
    (* xor_at o1 = Some out, loop (S j) out' = Some o1:
       want: xor_at out' then loop = Some out *)
    destruct (xor_at_Some out' (j mod len) (get_byte j clock_value))
      as [o2 Ho2].
    { destruct (xor_at_spec _ _ _ _ E) as (Hl1 & _ & Hi & _).
      assert (length out' = length o1) as Hl2.
      { clear - H. revert H. generalize (S j) as j0. revert o1 out'.
        induction c as [|c IHc]; intros o1 out' j0 H; cbn [poll_loop] in H.
        - now injection H as <-.
        - destruct (xor_at o1 _ _) as [o|] eqn:E0; [|discriminate].
          apply xor_at_spec in E0. destruct E0 as (Hl & _).
          rewrite (IHc _ _ _ H). exact Hl. }
      lia. }
    rewrite Ho2.
    (* loop (S j) o2 where o2 = xor_at out': commute back *)
    apply xor_at_cancel in Ho2.
    (* xor_at o2 = Some out' ; loop out' = Some o1 *)
    destruct (poll_loop_commute c (S j) o2 _ _ out' o1 Ho2 Hback)
      as (o3 & Hloop & Hx).
    rewrite Hloop. f_equal.
    (* xor_at o3 = Some o1 and xor_at o1 = Some out *)
    apply xor_at_cancel in Hx. rewrite Hx in E.
    now injection E.
Qed.

Lemma poll_loop_frame (count : nat) :
  forall j out out',
    poll_loop get_byte clock_value len j count out = Some out' ->
    length out' = length out
    /\ forall k,
        (forall t, (t < count)%nat -> k <> ((j + t) mod len)%nat) ->
        nth_error out' k = nth_error out k.
Proof.
  induction count as [|c IH]; intros j out out' H; cbn [poll_loop] in H.
  - injection H as <-. auto.
  - destruct (xor_at out (j mod len) (get_byte j clock_value)) as [o1|] eqn:E;
      [|discriminate].
    destruct (xor_at_spec _ _ _ _ E) as (Hl & _ & _ & Hf).
    destruct (IH _ _ _ H) as (Hl' & Hf').
    split; [lia|]. intros k Hk.
    rewrite Hf'.
    + apply Hf. specialize (Hk 0%nat ltac:(lia)).
      now rewrite Nat.add_0_r in Hk.
    + intros t Ht. specialize (Hk (S t) ltac:(lia)).
      now replace (S j + t)%nat with (j + S t)%nat by lia.
Qed.

Lemma poll_loop_defined (count : nat) :
  forall j out,
    (0 < len <= length out)%nat ->
    exists out', poll_loop get_byte clock_value len j count out = Some out'.
Proof.
  induction count as [|c IH]; intros j out Hlen; cbn [poll_loop]; [eauto|].
  destruct (xor_at_Some out (j mod len) (get_byte j clock_value))
    as [o1 E].
  { pose proof (Nat.mod_upper_bound j len ltac:(lia)). lia. }
  rewrite E. apply IH. apply xor_at_spec in E. lia.
Qed.

End Loop.

(** X22.  With [0 < length <= size of the buffer], [fast_poll] is defined,
    returns [min(length, 8)], keeps the buffer's size, and changes no byte
    at an index from [min(length, 8)] on. *)
Theorem fast_poll_touches_only_the_front (get_byte : nat -> Z -> byte)
  (clock_value : Z) (out : list byte) (length : nat) :
  (0 < length <= List.length out)%nat ->
  exists out',
    fast_poll get_byte clock_value out length
    = Some (out', Nat.min length 8)
    /\ List.length out' = List.length out
    /\ forall k, (Nat.min length 8 <= k)%nat ->
                 nth_error out' k = nth_error out k.
Proof.
  intro Hlen. unfold fast_poll.
  destruct (Nat.eqb_spec length 0); [lia|].
  destruct (poll_loop_defined get_byte clock_value length 8 0 out Hlen)
    as [out' E].
  rewrite E. exists out'.
  destruct (poll_loop_frame _ _ _ _ _ _ _ E) as (Hl & Hf).
  split; [|split; [exact Hl|]].
  - f_equal. f_equal. destruct (Nat.ltb_spec length 8); lia.
  - intros k Hk. apply Hf. intros t Ht. cbn [Nat.add].
    destruct (Nat.ltb_spec length 8) as [Hs|Hb].
    + pose proof (Nat.mod_upper_bound t length ltac:(lia)). lia.
    + rewrite Nat.mod_small by lia. lia.
Qed.

(** X24.  Polling twice with the same clock value restores the buffer: for
    a fixed clock value [fast_poll] is an invertible map on buffers, so
    mixing the clock in never loses what the buffer held. *)
Theorem fast_poll_twice_restores (get_byte : nat -> Z -> byte)
  (clock_value : Z) (out out' : list byte) (length n : nat) :
  fast_poll get_byte clock_value out length = Some (out', n) ->
  fast_poll get_byte clock_value out' length = Some (out, n).
Proof.
  unfold fast_poll. destruct (length =? 0)%nat; [discriminate|].
  destruct (poll_loop get_byte clock_value length 0 8 out) as [o|] eqn:E;
    [|discriminate].
  intros [= <- <-]. now rewrite (poll_loop_cancel _ _ _ _ _ _ _ E).
Qed.

Lemma poll_loop_distinct (get_byte : nat -> Z -> byte) (clock_value : Z)
  (len : nat) (count : nat) :
  forall j out out',
    (j + count <= len)%nat ->
    poll_loop get_byte clock_value len j count out = Some out' ->
    forall k, (j <= k < j + count)%nat ->
      nth_error out' k
      = option_map (fun a => byte_xor a (get_byte k clock_value))
          (nth_error out k).
Proof.
  induction count as [|c IH]; intros j out out' Hb H k Hk; [lia|].
  cbn [poll_loop] in H. rewrite Nat.mod_small in H by lia.
  destruct (xor_at out j (get_byte j clock_value)) as [o1|] eqn:E;
    [|discriminate].
  destruct (xor_at_spec _ _ _ _ E) as (_ & Hn & _ & Hf).
  destruct (Nat.eq_dec k j) as [->|Hne].
  - destruct (poll_loop_frame _ _ _ _ _ _ _ H) as (_ & Hfr).
    rewrite Hfr; [exact Hn|].
    intros t Ht. rewrite Nat.mod_small by lia. lia.
  - rewrite (IH (S j) o1 out' ltac:(lia) H k ltac:(lia)).
    now rewrite Hf by exact Hne.
Qed.

(** X23.  When the buffer has room for the whole clock value
    ([length >= 8]), [fast_poll] returns 8 and byte [j] of the buffer, for
    [j < 8], becomes its old value xor [get_byte(j, clock_value)]. *)
Theorem fast_poll_mixes_each_clock_byte (get_byte : nat -> Z -> byte)
  (clock_value : Z) (out out' : list byte) (length n : nat) :
  (8 <= length)%nat ->
  fast_poll get_byte clock_value out length = Some (out', n) ->
  n = 8%nat
  /\ forall j, (j < 8)%nat ->
       nth_error out' j
       = option_map (fun a => byte_xor a (get_byte j clock_value))
           (nth_error out j).
Proof.
  intro Hlen. unfold fast_poll.
  destruct (Nat.eqb_spec length 0); [lia|].
  destruct (poll_loop get_byte clock_value length 0 8 out) as [o|] eqn:E;
    [|discriminate].
  destruct (Nat.ltb_spec length 8); [lia|].
  intros [= <- <-]. split; [reflexivity|].
  intros j Hj.
  eapply poll_loop_distinct; [|exact E|]; lia.
Qed.

(** X25.  For 32-bit arguments with [parts_hz <> 0], the 64-bit
    sum never wraps: the result is [seconds * 10^9] plus the sub-second
    term reduced modulo [2^32].  It equals the exact value
    [seconds * 10^9 + parts * (10^9 / parts_hz)] exactly when that term is
    below [2^32]; this is so whenever [parts < parts_hz], and then the term
    is below [10^9]. *)
Theorem combine_timers_exact_iff (seconds parts parts_hz : Z) :
  0 <= seconds < 2 ^ 32 -> 0 <= parts < 2 ^ 32 -> 0 < parts_hz < 2 ^ 32 ->
  let term := parts * (NANOSECONDS_UNITS / parts_hz) in
  combine_timers seconds parts parts_hz
  = Some (seconds * NANOSECONDS_UNITS + term mod 2 ^ 32)
  /\ (combine_timers seconds parts parts_hz
      = Some (seconds * NANOSECONDS_UNITS + term)
      <-> term < 2 ^ 32)
  /\ (parts < parts_hz -> term < NANOSECONDS_UNITS).
Proof.
  intros Hs Hp Hz term.
  assert (0 <= NANOSECONDS_UNITS / parts_hz <= NANOSECONDS_UNITS) as Hq.
  { unfold NANOSECONDS_UNITS. split.
    - apply Z.div_pos; lia.
    - apply Z.div_le_upper_bound; nia. }
  assert (0 <= term) as Ht by (unfold term; nia).
  assert (0 <= term mod 2 ^ 32 < 2 ^ 32) as Hm
      by (apply Z.mod_pos_bound; lia).
  assert (combine_timers seconds parts parts_hz
          = Some (seconds * NANOSECONDS_UNITS + term mod 2 ^ 32)) as Heq.
  { unfold combine_timers. destruct (Z.eqb_spec parts_hz 0); [lia|].
    fold term. unfold u32bit, u64bit.
    assert ((term mod 2 ^ 64) mod 2 ^ 32 = term mod 2 ^ 32) as ->.
    { apply Z.mod_mod_divide. exists (2 ^ 32). reflexivity. }
    unfold NANOSECONDS_UNITS in *.
    rewrite (Z.mod_small (seconds * 1000000000)) by lia.
    rewrite Z.mod_small by lia. reflexivity. }
  split; [exact Heq|]. split.
  - rewrite Heq. split.
    + intros [= H]. 
      assert (term mod 2 ^ 32 = term) as Hsm by lia.
      rewrite <- Hsm. apply Hm.
    + intro Hlt. now rewrite Z.mod_small by lia.
  - intro Hlt. unfold term.
    destruct (Z.eq_dec (NANOSECONDS_UNITS / parts_hz) 0) as [->|Hne].
    + unfold NANOSECONDS_UNITS. lia.
    + assert (parts_hz * (NANOSECONDS_UNITS / parts_hz)
              <= NANOSECONDS_UNITS)
        by (apply Z.mul_div_le; lia).
      nia.
Qed.

(** X26.  On readings with [parts < parts_hz], [combine_timers]
    respects the order of time: a later second gives a strictly larger
    value, and within one second more parts never give a smaller value. *)
Theorem combine_timers_monotone (s1 p1 s2 p2 parts_hz r1 r2 : Z) :
  0 <= s1 < 2 ^ 32 -> 0 <= s2 < 2 ^ 32 -> 0 < parts_hz < 2 ^ 32 ->
  0 <= p1 < parts_hz -> 0 <= p2 < parts_hz ->
  combine_timers s1 p1 parts_hz = Some r1 ->
  combine_timers s2 p2 parts_hz = Some r2 ->
  (s1 < s2 -> r1 < r2)
  /\ (s1 = s2 -> p1 <= p2 -> r1 <= r2).
Proof.
  intros Hs1 Hs2 Hz Hp1 Hp2 H1 H2.
  assert (0 <= NANOSECONDS_UNITS / parts_hz) as Hq
      by (apply Z.div_pos; unfold NANOSECONDS_UNITS; lia).
  assert (forall s p, 0 <= s < 2 ^ 32 -> 0 <= p < parts_hz ->
            combine_timers s p parts_hz
            = Some (s * NANOSECONDS_UNITS
                    + p * (NANOSECONDS_UNITS / parts_hz))
            /\ 0 <= p * (NANOSECONDS_UNITS / parts_hz) < NANOSECONDS_UNITS)
    as Hexact.
  { intros s p Hs Hp.
    assert (p * (NANOSECONDS_UNITS / parts_hz) < NANOSECONDS_UNITS) as Hlt.
    { destruct (Z.eq_dec (NANOSECONDS_UNITS / parts_hz) 0) as [->|Hne].
      - unfold NANOSECONDS_UNITS. lia.
      - assert (parts_hz * (NANOSECONDS_UNITS / parts_hz)
                <= NANOSECONDS_UNITS)
          by (apply Z.mul_div_le; lia).
        nia. }
    split; [|split; [nia | exact Hlt]].
    unfold combine_timers. destruct (Z.eqb_spec parts_hz 0); [lia|].
    unfold u32bit, u64bit, NANOSECONDS_UNITS in *.
    rewrite (Z.mod_small (p * _) (2 ^ 64)) by nia.
    rewrite (Z.mod_small (p * _) (2 ^ 32)) by nia.
    rewrite (Z.mod_small (s * 1000000000)) by lia.
    rewrite Z.mod_small by nia. reflexivity. }
  destruct (Hexact s1 p1 Hs1 Hp1) as (E1 & B1).
  destruct (Hexact s2 p2 Hs2 Hp2) as (E2 & B2).
  rewrite E1 in H1. rewrite E2 in H2.
  injection H1 as <-. injection H2 as <-.
  unfold NANOSECONDS_UNITS in *. split.
  - intro Hlt. nia.
  - intros -> Hle. nia.
Qed.

End Timer_Facts.

(** *** The additional properties on concrete inputs *)

Lemma fast_poll_touches_only_the_front_witness :
  exists out',
    Timer.fast_poll Toy_Timer.get_byte 72623859790382856
      [x00; x00; x00; xff] 3
    = Some (out', 3%nat)
    /\ length out' = 4%nat
    /\ nth_error out' 3 = Some xff.
Proof.
  destruct (fast_poll_touches_only_the_front Toy_Timer.get_byte
              72623859790382856 [x00; x00; x00; xff] 3 ltac:(cbn; lia))
    as (out' & H & Hl & Hf).
  exists out'. split; [exact H|]. split; [exact Hl|].
  rewrite (Hf 3%nat ltac:(cbn; lia)). reflexivity.
Defined.

Lemma fast_poll_twice_restores_witness :
  Timer.fast_poll Toy_Timer.get_byte 72623859790382856
    [x02; x0f; x05; xff] 3
  = Some ([x00; x00; x00; xff], 3%nat).
Proof.
  apply (fast_poll_twice_restores Toy_Timer.get_byte 72623859790382856
           [x00; x00; x00; xff] [x02; x0f; x05; xff] 3 3).
  vm_compute. reflexivity.
Defined.

Lemma fast_poll_mixes_each_clock_byte_witness :
  nth_error [x01; x02; x03; x04; x05; x06; x07; x08; xaa] 2
  = option_map
      (fun a => Timer.byte_xor a (Toy_Timer.get_byte 2 72623859790382856))
      (nth_error (repeat x00 8 ++ [xaa]) 2).
Proof.
  apply (proj2 (fast_poll_mixes_each_clock_byte Toy_Timer.get_byte
                  72623859790382856 (repeat x00 8 ++ [xaa])
                  [x01; x02; x03; x04; x05; x06; x07; x08; xaa] 9 8
                  ltac:(lia) ltac:(vm_compute; reflexivity)) 2%nat).
  lia.
Defined.

Lemma combine_timers_exact_iff_witness :
  Timer.combine_timers 3 250000 1000000 = Some 3250000000
  /\ Timer.combine_timers 3 5000000 1000000 <> Some 8000000000.
Proof.
  pose proof (fun p Hp =>
    combine_timers_exact_iff 3 p 1000000 ltac:(lia) Hp ltac:(lia)) as T.
  cbv zeta in T. split.
  - apply (proj1 (T 250000 ltac:(lia))).
  - intro H.
    apply (proj1 (proj1 (proj2 (T 5000000 ltac:(lia))))) in H.
    vm_compute in H. discriminate.
Defined.

Lemma combine_timers_monotone_witness :
  3999999000 < 4000000000.
Proof.
  apply (proj1 (combine_timers_monotone 3 999999 4 0 1000000
                  3999999000 4000000000
                  ltac:(lia) ltac:(lia) ltac:(lia) ltac:(lia) ltac:(lia)
                  eq_refl eq_refl)).
  lia.
Defined.

Lemma public_key_from_point_checks_witness :
  @ECC_Key.EC_PublicKey_from_point Toy_EC.library Toy_EC.dom17 Toy_EC.H17
  = Throw (Invalid_State "Public key failed invariant check")
  /\ @ECC_Key.EC_PublicKey_from_point Toy_EC.library Toy_EC.dom17
       {| Toy_EC.on := {| Toy_EC.prime := 19; Toy_EC.coef_a := 2;
                          Toy_EC.coef_b := 2 |};
          Toy_EC.coords := Some (5, 2) |}
     = Throw (Invalid_Argument "EC_PublicKey: curve mismatch in constructor").
Proof.
  split.
  - apply (proj1 (proj2 (@public_key_from_point_checks Toy_EC.library
                           Toy_EC.dom17 Toy_EC.H17))); reflexivity.
  - apply (proj1 (@public_key_from_point_checks Toy_EC.library
                    Toy_EC.dom17 _)). reflexivity.
Defined.

Lemma generated_key_invariant_witness :
  @ECC_Key.in_sync Toy_EC.library
    (@ECC_Key.stored_key Toy_EC.library Toy_EC.dom17 8).
Proof.
  apply (proj1 (proj2 (@generated_key_invariant Toy_EC.library 7
                         Toy_EC.dom17 ltac:(cbn; lia)))
           (@ECC_Key.stored_key Toy_EC.library Toy_EC.dom17 8)).
  reflexivity.
Defined.

Lemma decoded_key_invariant_witness :
  @ECC_Key.in_sync Toy_EC.library
    (@ECC_Key.stored_key Toy_EC.library Toy_EC.dom17 5).
Proof.
  apply (@decoded_key_invariant Toy_EC.library Toy_EC.alg17
           [x30; x06; x02; x01; x01; x04; x01; x05]
           (@ECC_Key.stored_key Toy_EC.library Toy_EC.dom17 5)).
  reflexivity.
Defined.


Lemma decode_ignores_bytes_after_the_sequence_witness :
  @ECC_Key.EC_PrivateKey_decode Toy_EC.library Toy_EC.alg17
    ([x30; x06; x02; x01; x01; x04; x01; x05] ++ [xff; xff])
  = OK (@ECC_Key.stored_key Toy_EC.library Toy_EC.dom17 5).
Proof.
  apply (proj2 (@decode_ignores_bytes_after_the_sequence Toy_EC.library
                  Toy_EC.alg17 [x30; x06; x02; x01; x01; x04; x01; x05]
                  [xff; xff])).
  reflexivity.
Defined.

Lemma decode_rejects_extra_members_witness :
  exists e,
    @ECC_Key.EC_PrivateKey_decode Toy_EC.library Toy_EC.alg17
      [x30; x08; x02; x01; x01; x04; x01; x05; x05; x00]
    = Throw e.
Proof.
  apply (@decode_rejects_extra_members Toy_EC.library Toy_EC.alg17
           Toy_EC.dom17 [x05] [x05; x00]).
  - reflexivity.
  - cbn. lia.
  - discriminate.
Defined.

Lemma decoded_key_reencodes_witness :
  exists key_bits',
    @ECC_Key.pkcs8_private_key Toy_EC.library
      (@ECC_Key.stored_key Toy_EC.library Toy_EC.dom17 5) = OK key_bits'
    /\ @ECC_Key.EC_PrivateKey_decode Toy_EC.library Toy_EC.alg17 key_bits'
       = OK (@ECC_Key.stored_key Toy_EC.library Toy_EC.dom17 5).
Proof.
  apply (@decoded_key_reencodes Toy_EC.library Toy_EC.alg17
           [x30; x07; x02; x01; x01; x04; x02; x00; x05]).
  - reflexivity.
  - vm_compute. reflexivity.
Defined.

Lemma pkcs8_encodes_the_magnitude_witness :
  @ECC_Key.pkcs8_private_key Toy_EC.library
    (@ECC_Key.stored_key Toy_EC.library Toy_EC.dom17 5)
  = @ECC_Key.pkcs8_private_key Toy_EC.library
      (@ECC_Key.stored_key Toy_EC.library Toy_EC.dom17 (-5)).
Proof.
  apply (proj1 (proj2 (@pkcs8_encodes_the_magnitude Toy_EC.library
                         (@ECC_Key.stored_key Toy_EC.library
                            Toy_EC.dom17 5)
                         (@ECC_Key.stored_key Toy_EC.library
                            Toy_EC.dom17 (-5))))).
  reflexivity.
Defined.

Lemma decode_accepts_leading_zeros_witness :
  @ECC_Key.EC_PrivateKey_decode Toy_EC.library Toy_EC.alg17
    [x30; x07; x02; x01; x01; x04; x02; x00; x05]
  = @ECC_Key.EC_PrivateKey_decode Toy_EC.library Toy_EC.alg17
      [x30; x06; x02; x01; x01; x04; x01; x05].
Proof.
  apply (@decode_accepts_leading_zeros Toy_EC.library Toy_EC.alg17
           Toy_EC.dom17 [x05]).
  - reflexivity.
  - cbn. lia.
Defined.

Lemma set_parameter_encoding_outcome_witness :
  let this :=
    @ECC_Key.Build_EC_PublicKey Toy_EC.library Toy_EC.dom17 Toy_EC.G17
      ECC_Key.EC_DOMPAR_ENC_EXPLICIT in
  exists k,
    @ECC_Key_Encoding.set_parameter_encoding Toy_EC.library this
      (ECC_Key_Encoding.Enumerator ECC_Key.EC_DOMPAR_ENC_OID) = OK k.
Proof.
  cbv zeta.
  apply (proj2 (proj1 (@set_parameter_encoding_outcome Toy_EC.library
                         (@ECC_Key.Build_EC_PublicKey Toy_EC.library
                            Toy_EC.dom17 Toy_EC.G17
                            ECC_Key.EC_DOMPAR_ENC_EXPLICIT)
                         (ECC_Key_Encoding.Enumerator
                            ECC_Key.EC_DOMPAR_ENC_OID)))).
  exists ECC_Key.EC_DOMPAR_ENC_OID. split; [reflexivity|].
  intros _. discriminate.
Defined.

Lemma policy_rejection_stops_agreement_witness :
  let pk := @TLS_Callbacks.DH_PublicKey Toy_TLS.library Toy_TLS.modp23 2 in
  @TLS_Callbacks.tls_ephemeral_key_agreement Toy_TLS.library
    Toy_TLS.pk_library
    (@TLS_Callbacks.Named Toy_TLS.library Toy_TLS.FFDHE_2048)
    (@TLS_Callbacks.DH_PrivateKey Toy_TLS.library 1 Toy_TLS.modp23)
    [x02] 0 Toy_Policy.strict
  = ([TLS_Callbacks.Ev_check_peer_key_acceptable pk],
     Throw (TLS_Exception InsufficientSecurity "DH group is too small")).
Proof.
  cbv zeta.
  apply (@policy_rejection_stops_agreement Toy_TLS.library
           Toy_TLS.pk_library).
  - left. reflexivity.
  - reflexivity.
Defined.

Lemma agreement_only_after_policy_accepts_witness :
  exists pk,
    @TLS_Callbacks.check_peer_key_acceptable Toy_TLS.library
      Toy_TLS.permissive pk = OK tt
    /\ [x02] = @TLS_Callbacks.public_value Toy_TLS.library
                 Toy_TLS.pk_library pk.
Proof.
  destruct (@agreement_only_after_policy_accepts Toy_TLS.library
              Toy_TLS.pk_library
              (@TLS_Callbacks.Named Toy_TLS.library Toy_TLS.FFDHE_2048)
              (@TLS_Callbacks.DH_PrivateKey Toy_TLS.library 1
                 Toy_TLS.modp23)
              [x02] 0 Toy_TLS.permissive
              (@TLS_Callbacks.DH_PrivateKey Toy_TLS.library 1
                 Toy_TLS.modp23)
              0 [x02]
              ltac:(right; left; reflexivity))
    as (pk & Hok & _ & _ & Hv & _).
  exists pk. split; assumption.
Defined.

Lemma ecdh_peer_point_is_decoded_first_witness :
  @TLS_Callbacks.tls_ephemeral_key_agreement Toy_TLS.library
    Toy_TLS.pk_library
    (@TLS_Callbacks.Named Toy_TLS.library Toy_TLS.SECP256R1)
    (@TLS_Callbacks.ECDH_PrivateKey Toy_TLS.library 1 Toy_EC.dom17)
    [x04; x05; x02] 0 Toy_TLS.permissive
  = ([], Throw (Decoding_Error "OS2ECP: point not on curve")).
Proof.
  apply (proj1 (@ecdh_peer_point_is_decoded_first Toy_TLS.library
                  Toy_TLS.pk_library Toy_TLS.SECP256R1
                  (@TLS_Callbacks.ECDH_PrivateKey Toy_TLS.library 1
                     Toy_EC.dom17)
                  [x04; x05; x02] 0 Toy_TLS.permissive Toy_EC.dom17
                  eq_refl eq_refl eq_refl)).
  reflexivity.
Defined.

Lemma unrecognised_group_refused_by_both_witness :
  @TLS_Callbacks.tls_generate_ephemeral_key Toy_TLS.library
    (@TLS_Callbacks.Named Toy_TLS.library 99) 7
  = Throw (TLS_Exception DecodeError
             "cannot create a key offering without a group definition").
Proof.
  apply (@unrecognised_group_refused_by_both Toy_TLS.library
           Toy_TLS.pk_library 99
           (@TLS_Callbacks.X25519_PrivateKey Toy_TLS.library 1)
           [] 7 Toy_TLS.permissive eq_refl eq_refl eq_refl).
Defined.

Lemma generated_key_provenance_witness :
  (exists dl,
      @TLS_Callbacks.Named Toy_TLS.library Toy_TLS.SECP256R1
      = @TLS_Callbacks.Explicit Toy_TLS.library dl
      /\ @TLS_Callbacks.ECDH_PrivateKey Toy_TLS.library 7 Toy_EC.dom17
         = @TLS_Callbacks.DH_PrivateKey Toy_TLS.library 7 dl)
  \/ (exists gp dl,
        @TLS_Callbacks.Named Toy_TLS.library Toy_TLS.SECP256R1
        = @TLS_Callbacks.Named Toy_TLS.library gp
        /\ @TLS_Callbacks.is_dh Toy_TLS.library gp = true
        /\ @TLS_Callbacks.DL_Group_from_name Toy_TLS.library
             (@TLS_Callbacks.group_param_to_string Toy_TLS.library gp)
           = OK dl
        /\ @TLS_Callbacks.ECDH_PrivateKey Toy_TLS.library 7 Toy_EC.dom17
           = @TLS_Callbacks.DH_PrivateKey Toy_TLS.library 7 dl)
  \/ (exists gp ec,
        @TLS_Callbacks.Named Toy_TLS.library Toy_TLS.SECP256R1
        = @TLS_Callbacks.Named Toy_TLS.library gp
        /\ @TLS_Callbacks.is_dh Toy_TLS.library gp = false
        /\ @TLS_Callbacks.is_ecdh Toy_TLS.library gp = true
        /\ @TLS_Callbacks.EC_Group_from_name Toy_TLS.library
             (@TLS_Callbacks.group_param_to_string Toy_TLS.library gp)
           = OK ec
        /\ @TLS_Callbacks.ECDH_PrivateKey Toy_TLS.library 7 Toy_EC.dom17
           = @TLS_Callbacks.ECDH_PrivateKey Toy_TLS.library 7 ec)
  \/ (exists gp,
        @TLS_Callbacks.Named Toy_TLS.library Toy_TLS.SECP256R1
        = @TLS_Callbacks.Named Toy_TLS.library gp
        /\ @TLS_Callbacks.is_dh Toy_TLS.library gp = false
        /\ @TLS_Callbacks.is_ecdh Toy_TLS.library gp = false
        /\ @TLS_Callbacks.BOTAN_HAS_CURVE_25519 Toy_TLS.library
           && @TLS_Callbacks.is_x25519 Toy_TLS.library gp = true
        /\ @TLS_Callbacks.ECDH_PrivateKey Toy_TLS.library 7 Toy_EC.dom17
           = @TLS_Callbacks.X25519_PrivateKey Toy_TLS.library 7).
Proof.
  apply (@generated_key_provenance Toy_TLS.library
           (@TLS_Callbacks.Named Toy_TLS.library Toy_TLS.SECP256R1) 7
           (@TLS_Callbacks.ECDH_PrivateKey Toy_TLS.library 7 Toy_EC.dom17)).
  reflexivity.
Defined.

Lemma dh_key_seen_by_policy_is_in_range_witness :
  1 < 2 < TLS_Callbacks.get_p Toy_TLS.modp23 - 1.
Proof.
  apply (@dh_key_seen_by_policy_is_in_range Toy_TLS.library
           Toy_TLS.pk_library
           (@TLS_Callbacks.Named Toy_TLS.library Toy_TLS.FFDHE_2048)
           (@TLS_Callbacks.DH_PrivateKey Toy_TLS.library 1 Toy_TLS.modp23)
           [x02] 0 Toy_TLS.permissive Toy_TLS.modp23 2).
  left. reflexivity.
Defined.

Lemma dh_peer_value_leading_zeros_witness :
  @TLS_Callbacks.tls_ephemeral_key_agreement Toy_TLS.library
    Toy_TLS.pk_library
    (@TLS_Callbacks.Named Toy_TLS.library Toy_TLS.FFDHE_2048)
    (@TLS_Callbacks.DH_PrivateKey Toy_TLS.library 1 Toy_TLS.modp23)
    [x00; x02] 0 Toy_TLS.permissive
  = @TLS_Callbacks.tls_ephemeral_key_agreement Toy_TLS.library
      Toy_TLS.pk_library
      (@TLS_Callbacks.Named Toy_TLS.library Toy_TLS.FFDHE_2048)
      (@TLS_Callbacks.DH_PrivateKey Toy_TLS.library 1 Toy_TLS.modp23)
      [x02] 0 Toy_TLS.permissive.
Proof.
  apply (@dh_peer_value_leading_zeros Toy_TLS.library Toy_TLS.pk_library).
  reflexivity.
Defined.

Lemma cert_chain_verdict_witness :
  snd (@TLS_Callbacks.tls_verify_cert_chain Toy_TLS.library
         Toy_TLS.callbacks ["example.com"%string] [] []
         TLS_Callbacks.TLS_SERVER_AUTH "evil.example" Toy_TLS.permissive)
  = Throw (TLS_Exception BadCertificate
             "Certificate validation failure: Certificate does not match provided name").
Proof.
  apply (proj2 (@cert_chain_verdict Toy_TLS.library Toy_TLS.callbacks
                  ["example.com"%string] [] []
                  TLS_Callbacks.TLS_SERVER_AUTH "evil.example"
                  Toy_TLS.permissive)).
  - discriminate.
  - reflexivity.
Defined.

Lemma hostname_ignored_unless_server_auth_witness :
  @TLS_Callbacks.tls_verify_cert_chain Toy_TLS.library Toy_TLS.callbacks
    ["example.com"%string] [] [] TLS_Callbacks.TLS_CLIENT_AUTH
    "evil.example" Toy_TLS.permissive
  = @TLS_Callbacks.tls_verify_cert_chain Toy_TLS.library Toy_TLS.callbacks
      ["example.com"%string] [] [] TLS_Callbacks.TLS_CLIENT_AUTH
      "example.com" Toy_TLS.permissive.
Proof.
  apply (@hostname_ignored_unless_server_auth Toy_TLS.library).
  discriminate.
Defined.

Lemma ocsp_failure_iff_witness :
  @TLS_Callbacks.tls_parse_ocsp_response Toy_TLS_Strict.library []
  = Throw (Invalid_Argument "OCSP: empty response").
Proof.
  apply (proj2 (@ocsp_failure_iff Toy_TLS_Strict.library []
                  (Invalid_Argument "OCSP: empty response"))).
  split; [reflexivity | discriminate].
Defined.

Lemma cert_chain_status_leaf_only_witness :
  nth_error
    (TLS_Status.tls_provide_cert_chain_status
       (fun (_ : list string) (_ : unit) => [x30; x03])
       ["leaf"%string; "intermediate"%string; "root"%string] tt) 2
  = Some [].
Proof.
  apply (proj2 (proj2 (cert_chain_status_leaf_only
                         (fun (_ : list string) (_ : unit) => [x30; x03])
                         ["leaf"%string; "intermediate"%string;
                          "root"%string] tt))).
  cbn. lia.
Defined.
